(** * conduits-link/core: [src/utils/editor/slate.ts]

    A shallow embedding of the [EditorInterface] namespace, the policy layer
    the editor builds on top of the Slate tree-edit engine, together with the
    properties the specification states about it.

    Layout of the development:
    - the data model ([ElementType], [Node], [Editor]) as the source's type
      declarations give it;
    - the result type for code that may throw;
    - [Module Slate]: the primitives of the engine the source calls
      ([Editor.node], [Transforms.insertNodes], [Transforms.removeNodes],
      [Transforms.wrapNodes], [ReactEditor.findPath]).  The engine is an
      external library; its primitives are modelled by their contract.  A
      transform is one operation on the tree; the normalisation pass that
      the engine runs after it is not part of the model, which says instead
      when that pass has nothing to do ([settled], [blocks_below]): the
      statements about insertions and removals are made under that
      condition.  [ReactEditor.findPath] answers from what the renderer
      recorded, not from the document;
    - [Module EditorInterface]: the functions of the source, in source order;
    - the definitions that only the statements and proofs use;
    - [Module SlateFacts]: lemmas about the engine;
    - the properties of the source, one section per group of functions. *)

From stdpp Require Import base numbers option list strings gmap.

Local Open Scope string_scope.
Local Open Scope list_scope.
Local Open Scope Z_scope.

(** ** Data model *)

(** [export enum ElementType]. *)
Inductive ElementType : Set :=
| Paragraph
| Heading
| ListOrdered
| ListOrderedItem
| ListUnordered
| ListUnorderedItem
| Blockquote
| Codeblock
| Image
| Idea.

#[global] Instance ElementType_eq_dec : EqDecision ElementType.
Proof. solve_decision. Defined.

(** The string each member of the enum stands for at run time. *)
Definition ElementType_value (t : ElementType) : string :=
  match t with
  | Paragraph => "paragraph"
  | Heading => "heading"
  | ListOrdered => "list-ordered"
  | ListOrderedItem => "list-ordered-item"
  | ListUnordered => "list-unordered"
  | ListUnorderedItem => "list-unordered-item"
  | Blockquote => "blockquote"
  | Codeblock => "codeblock"
  | Image => "image"
  | Idea => "idea"
  end.

(** [export type FormattedText]. *)
Record FormattedText : Set := mkFormattedText {
  bold : option bool;
  italic : option bool;
  underline : option bool;
  strikethrough : option bool;
  code : option bool;
  link : option string;
  text : string;
}.

(** A leaf that carries only its text. *)
Definition plain (s : string) : FormattedText :=
  mkFormattedText None None None None None None s.

(** The fields that the element types declare besides [type] and
    [children]: [level] (heading), [url] and [alt] (image), [promptName]
    (idea). *)
Record ElementProps : Set := mkElementProps {
  level : option Z;
  url : option string;
  alt : option string;
  promptName : option string;
}.

Definition no_props : ElementProps := mkElementProps None None None None.

(** A position in the tree, [number[]] in the source.  The segments are
    integers: the source itself builds the path [[-1]]. *)
Definition Path : Set := list Z.

(** [CustomText | CustomElement].  A JavaScript object is more than its
    fields: [ReactEditor.findPath] looks a node up by reference, so every node
    carries [oid], the identity of the object.  The engine keeps every element
    with a [children] array, the image elements too, whose declared type has
    none; the source guards every read of an image's children. *)
#[warnings="-register-all"] Inductive Node : Set :=
| Text (oid : nat) (leaf : FormattedText)
| Element (oid : nat) (type : ElementType) (props : ElementProps)
    (children : list Node).

Definition node_oid (n : Node) : nat :=
  match n with
  | Text o _ => o
  | Element o _ _ _ => o
  end.

Record Point : Set := mkPoint { path : Path; offset : Z }.
Record Range : Set := mkRange { anchor : Point; focus : Point }.

(** The editor object: the root of the document and the selection
    ([Range | null]). *)
Record Editor : Set := mkEditor {
  children : list Node;
  selection : option Range;
}.

(** What a node lookup hands back: the editor object itself for the root
    path, a node of the tree otherwise.  The engine never mutates a node: an
    edit rebuilds the nodes on the way to the edited position and stores a
    new [children] array in the editor object.  So a reference to a node keeps
    showing the node as it was when it was read ([ANode] holds that value),
    while a reference to the editor always shows the current document
    ([TheEditor] holds nothing and is read through the current state). *)
Inductive NodeRef : Set :=
| TheEditor
| ANode (n : Node).

(** [node.type] and [node.children] on such a reference; [None] stands for
    [undefined]. *)
Definition ref_type (node : NodeRef) : option ElementType :=
  match node with
  | ANode (Element _ t _ _) => Some t
  | _ => None
  end.

Definition ref_children (editorState : Editor) (node : NodeRef)
  : option (list Node) :=
  match node with
  | TheEditor => Some (children editorState)
  | ANode (Element _ _ _ cs) => Some cs
  | ANode (Text _ _) => None
  end.

(** ** Exceptions *)

Inductive Exn : Set :=
| Error (message : string)   (* [throw new Error(message)] in the source *)
| TypeError                  (* a read through [undefined] *)
| OutOfBounds                (* engine: no descendant at that path *)
| NodeNotFound               (* engine: no path for that node *)
| RootHasNoParent            (* engine: the root path has no parent *)
| PastTheEnd                 (* engine: insertion index beyond the children *)
| NoPreviousPath.            (* engine: no path before a first child's *)

(** The outcome of a call: the value returned, or the exception thrown.
    The functions that edit take the editor and return the editor as the
    call leaves it.  A [Throw] holds the exception and nothing else: what
    the document holds at the moment an editing call throws is not part of
    this model, and no statement below speaks of it. *)
Inductive Result (A : Type) : Type :=
| Ok (a : A)
| Throw (e : Exn).
Arguments Ok {A} a.
Arguments Throw {A} e.

#[global] Instance Result_ret : MRet Result := fun _ a => Ok a.
#[global] Instance Result_bind : MBind Result := fun _ _ f m =>
  match m with
  | Ok a => f a
  | Throw e => Throw e
  end.
#[global] Instance Result_fmap : FMap Result := fun _ _ f m =>
  match m with
  | Ok a => Ok (f a)
  | Throw e => Throw e
  end.

(** [xs.forEach(f)] where [f] edits the state and may throw. *)
Definition forEach {S A : Type} (f : S -> A -> Result S) (xs : list A) (s : S)
  : Result S :=
  foldl (fun st x => s' ← st; f s' x) (Ok s) xs.

(** ** The tree-edit engine *)

Module Slate.

(** [children[p]]: [undefined] below zero and beyond the end. *)
Definition child_at (cs : list Node) (p : Z) : option Node :=
  if decide (p < 0) then None else cs !! Z.to_nat p.

(** [Node.get(root, path)] below a node. *)
Fixpoint Node_get (path : Path) (root : Node) : Result Node :=
  match path with
  | [] => Ok root
  | p :: rest =>
      match root with
      | Text _ _ => Throw OutOfBounds
      | Element _ _ _ cs =>
          match child_at cs p with
          | Some c => Node_get rest c
          | None => Throw OutOfBounds
          end
      end
  end.

(** [Editor.node(editor, path)[0]]. *)
Definition Editor_node (editor : Editor) (path : Path) : Result NodeRef :=
  match path with
  | [] => Ok TheEditor
  | p :: rest =>
      match child_at (children editor) p with
      | Some c => ANode <$> Node_get rest c
      | None => Throw OutOfBounds
      end
  end.

(** Rebuild the tree with the children of the node at [path] replaced by
    what [f] makes of them; every other node is shared with the old tree.
    The nodes on the way down are new objects in the engine; they keep their
    [oid] here, since the source never looks up by identity a node that lies
    above one of its own edits. *)
Fixpoint modify_below (path : Path) (f : list Node -> Result (list Node))
    (root : Node) : Result Node :=
  match root with
  | Text _ _ => Throw OutOfBounds
  | Element o t a cs =>
      match path with
      | [] => cs' ← f cs; Ok (Element o t a cs')
      | p :: rest =>
          match child_at cs p with
          | Some c =>
              c' ← modify_below rest f c;
              Ok (Element o t a (<[Z.to_nat p := c']> cs))
          | None => Throw OutOfBounds
          end
      end
  end.

(** The same for the editor.  The engine also moves the selection along
    with the nodes; the selection is kept as it is here.  The statements
    below speak of the selection after an edit only where the engine has
    brought it back to where it was: after an insertion undone by the
    removal of the node inserted. *)
Definition modifyChildren (editor : Editor) (path : Path)
    (f : list Node -> Result (list Node)) : Result Editor :=
  match path with
  | [] =>
      cs' ← f (children editor);
      Ok (mkEditor cs' (selection editor))
  | p :: rest =>
      match child_at (children editor) p with
      | Some c =>
          c' ← modify_below rest f c;
          Ok (mkEditor (<[Z.to_nat p := c']> (children editor))
                (selection editor))
      | None => Throw OutOfBounds
      end
  end.

(** [Path.parent(path)] and the last segment. *)
Definition Path_parent (path : Path) : Result (Path * Z) :=
  match last path with
  | Some i => Ok (removelast path, i)
  | None => Throw RootHasNoParent
  end.

(** [children.splice(index, 0, node)]: a negative index counts from the
    end. *)
Definition splice_in (cs : list Node) (index : Z) (node : Node)
  : list Node :=
  let i := if decide (index < 0)
           then Z.to_nat (Z.max 0 (Z.of_nat (length cs) + index))
           else Z.to_nat index in
  take i cs ++ node :: drop i cs.

(** [Transforms.insertNodes(editor, node, { at: path })], the operation it
    applies: the parent of [path] is looked up, the index is checked against
    the number of its children, the node is spliced in.  The engine then
    steps from the path after the new node back to the path of the node, and
    that step throws where the index is below zero, the splice already
    done.  After the operation the engine runs its normalisation pass over
    the new node, everything below it and every node above it; the pass is
    not modelled, [settled] and [blocks_below] tell when it is idle. *)
Definition insertNodes (editor : Editor) (node : Node) (at_ : Path)
  : Result Editor :=
  '(parent, index) ← Path_parent at_;
  editor' ← modifyChildren editor parent (fun cs =>
    if decide (Z.of_nat (length cs) < index) then Throw PastTheEnd
    else Ok (splice_in cs index node));
  if decide (index < 0) then Throw NoPreviousPath else Ok editor'.

(** [Transforms.removeNodes(editor, { at: path })], the operation it
    applies.  The normalisation pass that follows goes over every node above
    the removed one; it is not modelled, [blocks_below] tells when it is
    idle. *)
Definition removeNodes (editor : Editor) (at_ : Path) : Result Editor :=
  '(parent, index) ← Path_parent at_;
  modifyChildren editor parent (fun cs =>
    match child_at cs index with
    | Some _ => Ok (delete (Z.to_nat index) cs)
    | None => Throw OutOfBounds
    end).

(** Every object identity in use below a node, in document order. *)
Fixpoint oids (n : Node) : list nat :=
  match n with
  | Text o _ => [o]
  | Element o _ _ cs => o :: flat_map oids cs
  end.

Definition oids_of (cs : list Node) : list nat := flat_map oids cs.

(** The identity of the next object to be created. *)
Definition fresh_oid (editor : Editor) : nat :=
  S (max_list (oids_of (children editor))).

(** [Transforms.wrapNodes(editor, { type, children: [] }, { at: path })]:
    a new element takes the place of the node at [path] and holds it as its
    only child.  Nothing happens at the root path. *)
Definition wrapNodes (editor : Editor) (type : ElementType) (at_ : Path)
  : Result Editor :=
  match at_ with
  | [] => Ok editor
  | _ =>
      '(parent, index) ← Path_parent at_;
      modifyChildren editor parent (fun cs =>
        match child_at cs index with
        | Some c =>
            Ok (<[Z.to_nat index :=
                    Element (fresh_oid editor) type no_props [c]]> cs)
        | None => Throw OutOfBounds
        end)
  end.

(** Search for the object [target] below a node, in document order. *)
Fixpoint find_below (target : nat) (root : Node) : option Path :=
  if decide (node_oid root = target) then Some []
  else
    match root with
    | Text _ _ => None
    | Element _ _ _ cs =>
        (fix among (i : nat) (cs : list Node) : option Path :=
           match cs with
           | [] => None
           | c :: cs' =>
               match find_below target c with
               | Some p => Some (Z.of_nat i :: p)
               | None => among (S i) cs'
               end
           end) 0%nat cs
    end.

Fixpoint find_among (target : nat) (i : nat) (cs : list Node)
  : option Path :=
  match cs with
  | [] => None
  | c :: cs' =>
      match find_below target c with
      | Some p => Some (Z.of_nat i :: p)
      | None => find_among target (S i) cs'
      end
  end.

(** What the renderer has recorded.  slate-react keeps two tables keyed by
    object, [NODE_TO_INDEX] and [NODE_TO_PARENT], and writes them while it
    renders, at no other time: an edit leaves them as they are until the
    next rendering, and the entries of an object stay when the object has
    left the document.  [ReactEditor.findPath] reads nothing else: from the
    object given it steps to the parent recorded for it, collecting the index
    recorded at each step, until it reaches an object with no parent on
    record, which has to be an editor.  The two tables are kept here as what
    that walk makes of them: for each object the path the walk arrives at,
    [None] where it breaks off. *)
Definition Rendered : Type := nat -> option Path.

(** The tables of a renderer that has rendered nothing. *)
Definition never_rendered : Rendered := fun _ => None.

(** The tables of a renderer that has rendered the document [cs], where
    each object stands once: every object of [cs] is on record with the
    position it has in [cs]. *)
Definition rendered (cs : list Node) : Rendered :=
  fun o => find_among o 0 cs.

(** [ReactEditor.findPath(editor, node)].  The editor object has no parent
    on record and the walk stops at once, with the root path; the document
    the editor holds is not read. *)
Definition findPath (recorded : Rendered) (editor : Editor) (node : NodeRef)
  : Result Path :=
  match node with
  | TheEditor => Ok []
  | ANode n =>
      match recorded (node_oid n) with
      | Some p => Ok p
      | None => Throw NodeNotFound
      end
  end.

(** *** Where the normalisation pass is idle

    After a transform the engine normalises the nodes the operation touched:
    for an insertion the new node, every node below it and every node above
    it; for a removal every node above the removed one.  The editor is the
    engine's own, in which no element is inline or void.  On one node the
    pass gives an element without children an empty text leaf, removes the
    children that are not of the kind of the first child (text or element;
    under the editor object, the text leaves), merges a text leaf into the
    one before it when the two carry the same marks, and removes an empty
    text leaf that stands beside another. *)

(** [Element.isElement] and [Text.isText] on a node. *)
Definition is_element (n : Node) : bool :=
  match n with
  | Element _ _ _ _ => true
  | Text _ _ => false
  end.

Definition is_text (n : Node) : bool := negb (is_element n).

(** [Text.equals(a, b, { loose: true })]: every field but [text] agrees. *)
Definition same_marks (a b : FormattedText) : bool :=
  bool_decide (bold a = bold b ∧ italic a = italic b
               ∧ underline a = underline b
               ∧ strikethrough a = strikethrough b
               ∧ code a = code b ∧ link a = link b).

(** No text leaf of [cs] would be merged into its neighbour, and none
    removed as empty. *)
Fixpoint texts_settled (cs : list Node) : bool :=
  match cs with
  | Text _ a :: rest =>
      match rest with
      | Text _ b :: _ =>
          negb (same_marks a b)
          && negb (bool_decide (text a = ""))
          && negb (bool_decide (text b = ""))
      | _ => true
      end && texts_settled rest
  | _ :: rest => texts_settled rest
  | [] => true
  end.

(** The pass finds nothing to do on the node nor below it. *)
Fixpoint settled (n : Node) : bool :=
  match n with
  | Text _ _ => true
  | Element _ _ _ cs =>
      match cs with
      | [] => false
      | Text _ _ :: _ => forallb is_text cs && texts_settled cs
      | Element _ _ _ _ :: _ => forallb is_element cs
      end && forallb settled cs
  end.

(** The node and every node on the way from it down [path] hold elements
    only: on these nodes the pass finds nothing to do, nor will it after an
    element was put among their children or, as long as one child is left,
    taken from them. *)
Fixpoint blocks_below (path : Path) (root : Node) : bool :=
  match root with
  | Text _ _ => false
  | Element _ _ _ cs =>
      forallb is_element cs
      && match path with
         | [] => true
         | p :: rest =>
             match child_at cs p with
             | Some c => blocks_below rest c
             | None => false
             end
         end
  end.

(** [Node.first(root, path)] below a node: the way down along the first
    children, to a text leaf or to an element without children. *)
Fixpoint first_below (n : Node) : Path * Node :=
  match n with
  | Text _ _ => ([], n)
  | Element _ _ _ cs =>
      match cs with
      | [] => ([], n)
      | c :: _ => let '(p, m) := first_below c in (0 :: p, m)
      end
  end.

(** [Node.last(root, path)] below a node: the same along the last
    children. *)
Fixpoint last_below (n : Node) : Path * Node :=
  match n with
  | Text _ _ => ([], n)
  | Element _ _ _ cs =>
      match
        (fix last_child (i : nat) (cs : list Node) : option (Path * Node) :=
           match cs with
           | [] => None
           | c :: cs' =>
               match last_child (S i) cs' with
               | Some r => Some r
               | None =>
                   Some (let '(p, m) := last_below c in (Z.of_nat i :: p, m))
               end
           end) 0%nat cs
      with
      | Some r => r
      | None => ([], n)
      end
  end.

Definition first_among (cs : list Node) : option (Path * Node) :=
  match cs with
  | [] => None
  | c :: _ => Some (let '(p, m) := first_below c in (0 :: p, m))
  end.

Fixpoint last_among (i : nat) (cs : list Node) : option (Path * Node) :=
  match cs with
  | [] => None
  | c :: cs' =>
      match last_among (S i) cs' with
      | Some r => Some r
      | None => Some (let '(p, m) := last_below c in (Z.of_nat i :: p, m))
      end
  end.

(** The two edges of a node. *)
Inductive Edge : Set :=
| EdgeStart
| EdgeEnd.

(** [Editor.point(editor, path, { edge })]: the point at the start of the
    first text leaf, or at the end of the last one, of the node at [path].
    A text is its sequence of code units, and [text.length] their number.
    Where the way down does not end in a text leaf the engine throws an
    error whose message quotes the path; the message is shortened here. *)
Definition Editor_point (editor : Editor) (at_ : Path) (edge : Edge)
  : Result Point :=
  r ← Editor_node editor at_;
  let down :=
    match r, edge with
    | TheEditor, EdgeStart => first_among (children editor)
    | TheEditor, EdgeEnd => last_among 0 (children editor)
    | ANode n, EdgeStart => Some (first_below n)
    | ANode n, EdgeEnd => Some (last_below n)
    end in
  match down with
  | Some (p, Text _ lf) =>
      Ok (mkPoint (at_ ++ p)
            match edge with
            | EdgeStart => 0
            | EdgeEnd => Z.of_nat (String.length (text lf))
            end)
  | _ => Throw (Error "Cannot get the point: no text node")
  end.

(** [Transforms.select(editor, path)] followed by
    [Transforms.collapse(editor, { edge: "end" })]: the range from the start
    to the end of the node is selected, then reduced to its end. *)
Definition select_collapse_end (editor : Editor) (at_ : Path)
  : Result Editor :=
  start ← Editor_point editor at_ EdgeStart;
  end_ ← Editor_point editor at_ EdgeEnd;
  let selected := mkEditor (children editor) (Some (mkRange start end_)) in
  Ok (mkEditor (children selected) (Some (mkRange end_ end_))).

End Slate.

(** ** Object literals *)

(** [generateNewNode] builds its result with an object literal that ends in
    [...options], and [options] is of type [any]: any field of the literal can
    be replaced and any field added.  The result is therefore kept as the
    object the literal evaluates to, a finite map from field names to
    values. *)
#[warnings="-register-all"] Inductive Value : Set :=
| VString (s : string)
| VArray (items : list Value)
| VObject (fields : gmap string Value).

Abbreviation Object := (gmap string Value).

(** [{ ...literal, ...options }]: the fields of [options] win; spreading
    [undefined] adds nothing. *)
Definition spread (literal : Object) (options : option Object) : Object :=
  default ∅ options ∪ literal.

(** ** The source: [namespace EditorInterface] *)

Module EditorInterface.

(** [getNode(editorState, path)], the overload taken when the second
    argument is an array. *)
Definition getNode (editorState : Editor) (path : Path) : Result NodeRef :=
  Slate.Editor_node editorState path.

(** [getNode(editorState, node)], the other overload.  [recorded] is the
    state of the renderer at the time of the call, which
    [ReactEditor.findPath] reads; no function of the source writes it. *)
Definition getNode_path (recorded : Slate.Rendered) (editorState : Editor)
    (node : NodeRef) : Result Path :=
  Slate.findPath recorded editorState node.

(** The result of [getSelectedRootNode]; [node = None] is [null]. *)
Record SelectedRootNode : Set := mkSelectedRootNode {
  node : option NodeRef;
  index : Z;
}.

(** With an empty anchor path [nodeIndex] is [undefined], and the engine
    finds no child [undefined]. *)
Definition getSelectedRootNode (editorState : Editor)
  : Result SelectedRootNode :=
  match selection editorState with
  | Some sel =>
      match path (anchor sel) with
      | nodeIndex :: _ =>
          n ← Slate.Editor_node editorState [nodeIndex];
          Ok (mkSelectedRootNode (Some n) nodeIndex)
      | [] => Throw OutOfBounds
      end
  | None => Ok (mkSelectedRootNode None (-1))
  end.

(** The first argument of [getNodeType]: [Editor | CustomElement]. *)
Inductive EditorOrNode : Set :=
| IsEditor (editorState : Editor)
| IsNode (n : Node).

(** A looked-up value passed on as a first argument: the root path yields
    the editor object. *)
Definition as_argument (editorState : Editor) (r : NodeRef) : EditorOrNode :=
  match r with
  | TheEditor => IsEditor editorState
  | ANode n => IsNode n
  end.

(** [getNodeType(arg1, path?)], the implementation behind both overloads;
    [path = None] is a call without the second argument.  [isEditor(arg1)]
    is the test on the constructor, and [Element.isElement] holds of the
    elements only, not of a text leaf nor of the editor. *)
Definition getNodeType (arg1 : EditorOrNode) (path : option Path)
  : Result (option ElementType) :=
  n ← match arg1 with
      | IsEditor editorState =>
          match path with
          | None =>
              Throw (Error
                "Path must be provided when the first argument is an Editor")
          | Some p => getNode editorState p
          end
      | IsNode n => Ok (ANode n)
      end;
  match n with
  | ANode (Element _ t _ _) => Ok (Some t)
  | _ => Ok None
  end.

(** ["type" in element && element.type === ElementType.Idea]. *)
Definition isIdeaElement (element : Node) : bool :=
  match element with
  | Element _ t _ _ => bool_decide (t = Idea)
  | Text _ _ => false
  end.

(** [path.slice(0, -1)] is [removelast path]. *)
Definition getNodeParent (editorState : Editor) (path : Path)
  : Result (NodeRef * Path) :=
  let parentPath := removelast path in
  parent ← getNode editorState parentPath;
  Ok (parent, parentPath).

(** The result is [undefined] ([None]) for a text leaf, which has no
    [children]. *)
Definition getNodeChildren (editorState : Editor) (path : Path)
  : Result (option (list Node)) :=
  n ← getNode editorState path;
  if decide (ref_type n ≠ Some Image) then Ok (ref_children editorState n)
  else Ok (Some []).

(** The loop of [getNodeContent] over [children], given what the recursive
    call returns. *)
Definition content_loop (recursive_call : Result string)
    (children : list Node) : Result string :=
  foldl (fun acc child =>
           content ← acc;
           match child with
           | Text _ lf => Ok (content +:+ text lf)
           | Element _ _ _ _ => s ← recursive_call; Ok (content +:+ s)
           end)
        (Ok "") children.

(** [getNodeContent] at a node already looked up.  The recursive call of
    the source goes to [path.concat(0)], the first child of the same node,
    whatever child the loop is at: it is a structural descent, and
    [getNodeContent_eq] below gives back the equation of the source. *)
Fixpoint content_below (n : Node) : Result string :=
  match n with
  | Text _ _ => Throw TypeError
  | Element _ t _ cs =>
      if decide (t ≠ Image) then
        content_loop
          (match cs with
           | c0 :: _ => content_below c0
           | [] => Throw OutOfBounds
           end) cs
      else Ok ""
  end.

Definition getNodeContent (editorState : Editor) (path : Path)
  : Result string :=
  n ← getNode editorState path;
  match n with
  | TheEditor =>
      content_loop
        (match children editorState with
         | c0 :: _ => content_below c0
         | [] => Throw OutOfBounds
         end) (children editorState)
  | ANode n => content_below n
  end.

Definition insertNode (editorState : Editor) (n : Node) (path : Path)
  : Result Editor :=
  Slate.insertNodes editorState n path.

Definition deleteNode (editorState : Editor) (n : Path) : Result Editor :=
  Slate.removeNodes editorState n.

Definition text_leaf (content : string) : Value :=
  VObject {[ "text" := VString content ]}.

Definition generateNewNode (type : ElementType) (content : string)
    (options : option Object) : Object :=
  if decide (type = ListOrdered ∨ type = ListUnordered) then
    spread
      (<["type" := VString (ElementType_value type)]>
       (<["children" :=
            VArray [VObject
              (<["type" := VString (ElementType_value
                    (if decide (type = ListOrdered) then ListOrderedItem
                     else ListUnorderedItem))]>
               (<["children" := VArray [text_leaf content]]> ∅))]]>
       (<["ideas" := VArray []]> ∅)))
      options
  else
    spread
      (<["type" := VString (ElementType_value type)]>
       (<["children" := VArray [text_leaf content]]>
       (<["ideas" := VArray []]> ∅)))
      options.

(** [node.children.length]; reading it through a text leaf throws. *)
Definition children_length (editorState : Editor) (n : NodeRef) : Result Z :=
  match ref_children editorState n with
  | Some cs => Ok (Z.of_nat (length cs))
  | None => Throw TypeError
  end.

(** [node] is read once, before the loop. *)
Definition addIdeasToNode (editorState : Editor) (path : Path)
    (ideas : list Node) : Result Editor :=
  n ← getNode editorState path;
  if decide (ref_type n = Some Image ∨ ref_type n = Some ListOrderedItem
             ∨ ref_type n = Some ListUnorderedItem)
  then Ok editorState
  else
    forEach (fun editorState idea =>
               len ← children_length editorState n;
               insertNode editorState idea (path ++ [len]))
            ideas editorState.

Definition getIdeas (editorState : Editor) (path : Path)
  : Result (list Node) :=
  n ← getNode editorState path;
  if decide (ref_type n = Some Image) then Ok []
  else
    match ref_children editorState n with
    | Some cs => Ok (List.filter isIdeaElement cs)
    | None => Throw TypeError
    end.

(** [recorded] is the state of the renderer during the call: nothing is
    rendered while the loop runs, so every turn reads the same tables. *)
Definition clearIdeas (recorded : Slate.Rendered) (editorState : Editor)
    (path : Path) : Result Editor :=
  ideas ← getIdeas editorState path;
  forEach (fun editorState idea =>
             p ← Slate.findPath recorded editorState (ANode idea);
             deleteNode editorState p)
          ideas editorState.

(** The positions of the children that satisfy [f], counted from [i]: what
    the loop over [node.children] pushes on one of its two arrays. *)
Fixpoint indices_from (f : Node -> bool) (i : nat) (cs : list Node)
  : list nat :=
  match cs with
  | [] => []
  | c :: cs' =>
      if f c then i :: indices_from f (S i) cs'
      else indices_from f (S i) cs'
  end.

(** [children] is the array [React.Children.toArray(children)] of rendered
    children, of any type [R]; reading it at an index it does not have gives
    [undefined] ([None]).  A text leaf in the place of [node] has no
    [children] to run through. *)
Definition splitChildrenIntoElementsAndIdeas {R : Type} (children : list R)
    (n : Node) : Result (list (option R) * list (option R)) :=
  match n with
  | Text _ _ => Throw TypeError
  | Element _ t _ cs =>
      if decide (t = Image) then Ok (Some <$> children, [])
      else
        let childrenReactNodes := children in
        let elementIndices :=
          indices_from (fun child => negb (isIdeaElement child)) 0 cs in
        let ideaIndices := indices_from isIdeaElement 0 cs in
        let elements := (fun i => childrenReactNodes !! i) <$> elementIndices in
        let ideas := (fun i => childrenReactNodes !! i) <$> ideaIndices in
        Ok (elements, ideas)
  end.

(** [{ index: selection.anchor.offset, path: selection.anchor.path }]. *)
Definition getCursorPosition (editorState : Editor) : Z * Path :=
  match selection editorState with
  | Some sel => (offset (anchor sel), path (anchor sel))
  | None => (-1, [])
  end.

Definition setCursor (editorState : Editor) (path : Path) : Result Editor :=
  Slate.select_collapse_end editorState path.

(** [val] is [number[] | ElementType]. *)
Definition isNodeAList (editorState : Editor) (val : Path + ElementType)
  : Result bool :=
  match val with
  | inr t => Ok (bool_decide (t = ListOrdered ∨ t = ListUnordered))
  | inl p =>
      t1 ← getNodeType (IsEditor editorState) (Some p);
      if decide (t1 = Some ListOrdered) then Ok true
      else
        t2 ← getNodeType (IsEditor editorState) (Some p);
        if decide (t2 = Some ListUnordered) then Ok true else Ok false
  end.

Definition isNodeAListItem (editorState : Editor) (val : Path + ElementType)
  : Result bool :=
  match val with
  | inr t => Ok (bool_decide (t = ListOrderedItem ∨ t = ListUnorderedItem))
  | inl p =>
      t1 ← getNodeType (IsEditor editorState) (Some p);
      if decide (t1 = Some ListOrderedItem) then Ok true
      else
        t2 ← getNodeType (IsEditor editorState) (Some p);
        if decide (t2 = Some ListUnorderedItem) then Ok true else Ok false
  end.

(** A number or [undefined], what [cursorPath[1]] evaluates to. *)
Inductive Index : Set :=
| Num (z : Z)
| Undefined.

Definition segment (p : Path) (i : nat) : Index :=
  match p !! i with
  | Some z => Num z
  | None => Undefined
  end.

(** [rootNode] is an object in both cases of [getSelectedRootNode], so the
    test [rootNode && ...] goes on to the second conjunct. *)
Definition getIndexOfCurrentListItem (editorState : Editor) : Result Index :=
  rootNode ← getSelectedRootNode editorState;
  isList ← isNodeAList editorState (inl [index rootNode]);
  if isList : bool then
    let cursorPath := snd (getCursorPosition editorState) in
    Ok (segment cursorPath 1)
  else Ok (Num (-1)).

(** [parent.node] is an object whenever the lookup returns. *)
Definition isNodeWrappedInList (editorState : Editor) (path : Path)
  : Result bool :=
  parent ← getNodeParent editorState path;
  isNodeAList editorState (inl (snd parent)).

Definition insertListWrapper (editorState : Editor) (n : Path)
    (type : ElementType) : Result Editor :=
  isItem ← isNodeAListItem editorState (inl n);
  if negb (isItem : bool) then Ok editorState
  else Slate.wrapNodes editorState type n.

End EditorInterface.

(** ** Auxiliary definitions for the statements and proofs *)

(** The editor object holds the document as an element holds its children:
    [root_of] is the document seen as one node. *)
Definition root_of (editor : Editor) : Node :=
  Element 0 Paragraph no_props (children editor).

Definition node_children (n : Node) : list Node :=
  match n with
  | Element _ _ _ cs => cs
  | Text _ _ => []
  end.

(** A reference to the same object with other children. *)
Definition with_children (r : NodeRef) (cs : list Node) : NodeRef :=
  match r with
  | ANode (Element o t a _) => ANode (Element o t a cs)
  | _ => r
  end.

(** The objects the generated skeletons are made of. *)
Definition leaf_object (content : string) : Value :=
  VObject {[ "text" := VString content ]}.

Definition item_object (type : ElementType) (content : string) : Value :=
  VObject (<["type" := VString (ElementType_value type)]>
           (<["children" := VArray [leaf_object content]]> ∅)).

(** The children [clearIdeas] keeps. *)
Definition notIdeaElement (element : Node) : bool :=
  negb (EditorInterface.isIdeaElement element).

(** The editor with the children of the node at [path] set to [cs]. *)
Definition setChildren (editor : Editor) (path : Path) (cs : list Node)
  : Result Editor :=
  Slate.modifyChildren editor path (fun _ => Ok cs).

(** The document and every node on the way down to [path], the node at
    [path] too, hold elements only. *)
Definition blocks_along (editor : Editor) (path : Path) : bool :=
  Slate.blocks_below path (root_of editor).

(** The renderer has on record every node of the document, at the position
    it has in the document: the state of things when the document was
    rendered as it stands and not edited since. *)
Definition up_to_date (recorded : Slate.Rendered) (editor : Editor) : Prop :=
  ∀ (q : Path) (n : Node),
    Slate.Editor_node editor q = Ok (ANode n) →
    recorded (node_oid n) = Some q.

(** ** Text of a node, for the statements about [getNodeContent] *)

(** [typeof child === "object" && "text" in child]. *)
Definition isTextLeaf (child : Node) : bool :=
  match child with
  | Text _ _ => true
  | Element _ _ _ _ => false
  end.

(** The texts of the text leaves of a list of children, one after the
    other. *)
Definition leaf_texts (children : list Node) : string :=
  foldr (fun child rest =>
           match child with
           | Text _ lf => text lf +:+ rest
           | Element _ _ _ _ => rest
           end) "" children.

(** The texts of a list of children one after the other, where every
    child that is not a text leaf stands for the same text [s]. *)
Definition texts_with (s : string) (children : list Node) : string :=
  foldr (fun child rest =>
           match child with
           | Text _ lf => text lf +:+ rest
           | Element _ _ _ _ => s +:+ rest
           end) "" children.

(** The text the specification describes: the text of every leaf below a
    node, in document order, except the leaves below an idea. *)
Fixpoint text_outside_ideas (n : Node) : string :=
  match n with
  | Text _ lf => text lf
  | Element _ t _ cs =>
      if decide (t = Idea) then ""
      else String.concat "" (map text_outside_ideas cs)
  end.

(** * Lemmas about the engine *)

Module SlateFacts.
Import Slate.

(** ** The result monad and [forEach] *)

Lemma forEach_nil {S A : Type} (f : S -> A -> Result S) (s : S) :
  forEach f [] s = Ok s.
Proof. reflexivity. Qed.

Lemma forEach_throw {S A : Type} (f : S -> A -> Result S) (xs : list A)
    (e : Exn) :
  foldl (fun st x => s' ← st; f s' x) (Throw e) xs = Throw e.
Proof. induction xs as [|x xs IH]; [reflexivity | exact IH]. Qed.

Lemma forEach_cons {S A : Type} (f : S -> A -> Result S) (x : A)
    (xs : list A) (s : S) :
  forEach f (x :: xs) s = (s' ← f s x; forEach f xs s').
Proof.
  unfold forEach. cbn. destruct (f s x) as [s'|e]; cbn.
  - reflexivity.
  - apply forEach_throw.
Qed.

(** ** Indexing *)

Lemma child_at_Some (cs : list Node) (p : Z) (c : Node) :
  child_at cs p = Some c ↔ 0 ≤ p ∧ cs !! Z.to_nat p = Some c.
Proof.
  unfold child_at. destruct (decide (p < 0)); split.
  - discriminate.
  - intros [? _]. lia.
  - intros H. split; [lia | exact H].
  - intros [_ H]. exact H.
Qed.

Lemma child_at_of_nat (cs : list Node) (k : nat) :
  child_at cs (Z.of_nat k) = cs !! k.
Proof.
  unfold child_at. destruct (decide (Z.of_nat k < 0)); [lia|].
  by rewrite Nat2Z.id.
Qed.

Lemma child_at_middle (pre post : list Node) (c : Node) :
  child_at (pre ++ c :: post) (Z.of_nat (length pre)) = Some c.
Proof. rewrite child_at_of_nat. apply list_lookup_middle. reflexivity. Qed.

(** ** The editor as the root of the tree

    The editor object holds the document as an element holds its children;
    the lemmas are proved once, below a node, and carried over to the
    editor through [root_of]. *)

Lemma Editor_node_root_of (editor : Editor) (path : Path) :
  Editor_node editor path =
    match path with
    | [] => Ok TheEditor
    | _ => ANode <$> Node_get path (root_of editor)
    end.
Proof.
  destruct path as [|p rest]; [reflexivity|].
  cbn. by destruct (child_at (children editor) p).
Qed.

Lemma modifyChildren_root_of (editor : Editor) (path : Path)
    (f : list Node -> Result (list Node)) :
  modifyChildren editor path f =
    (root' ← modify_below path f (root_of editor);
     Ok (mkEditor (node_children root') (selection editor))).
Proof.
  destruct path as [|p rest]; cbn.
  - by destruct (f (children editor)).
  - destruct (child_at (children editor) p) as [c|]; [|reflexivity].
    cbn. by destruct (modify_below rest f c).
Qed.

(** A looked-up reference and its children, read off [root_of]. *)
Lemma ref_children_root_of (editor : Editor) (path : Path) (r : NodeRef)
    (cs : list Node) :
  Editor_node editor path = Ok r →
  ref_children editor r = Some cs →
  ∃ o t a, Node_get path (root_of editor) = Ok (Element o t a cs)
           ∧ (path = [] ∧ r = TheEditor
              ∨ path ≠ [] ∧ r = ANode (Element o t a cs)).
Proof.
  rewrite Editor_node_root_of. destruct path as [|p rest].
  - intros [= <-] [= <-]. exists 0%nat, Paragraph, no_props. by split; [|left].
  - destruct (Node_get (p :: rest) (root_of editor)) as [n|] eqn:Hn; [|done].
    intros [= <-]. destruct n as [|o t a cs0]; [done|].
    intros [= <-]. exists o, t, a. by split; [|right].
Qed.

(** ** Lookup *)

Lemma Node_get_app (q1 q2 : Path) (root : Node) :
  Node_get (q1 ++ q2) root = (n ← Node_get q1 root; Node_get q2 n).
Proof.
  revert root. induction q1 as [|p q1 IH]; intros root; [reflexivity|].
  cbn. destruct root as [|o t a cs]; [reflexivity|].
  destruct (child_at cs p); [apply IH | reflexivity].
Qed.

Lemma Node_get_snoc (q : Path) (i : Z) (root : Node) (o : nat)
    (t : ElementType) (a : ElementProps) (cs : list Node) (c : Node) :
  Node_get q root = Ok (Element o t a cs) →
  child_at cs i = Some c →
  Node_get (q ++ [i]) root = Ok c.
Proof.
  intros Hq Hc. rewrite Node_get_app, Hq. cbn. by rewrite Hc.
Qed.

Lemma elem_of_oids_of (x : nat) (cs : list Node) :
  x ∈ oids_of cs ↔ ∃ c, c ∈ cs ∧ x ∈ oids c.
Proof.
  unfold oids_of. rewrite list_elem_of_In, in_flat_map.
  by setoid_rewrite list_elem_of_In.
Qed.

Lemma oids_of_app (cs1 cs2 : list Node) :
  oids_of (cs1 ++ cs2) = oids_of cs1 ++ oids_of cs2.
Proof. apply flat_map_app. Qed.

Lemma oids_of_sublist (cs1 cs2 : list Node) :
  cs1 `sublist_of` cs2 → oids_of cs1 `sublist_of` oids_of cs2.
Proof.
  induction 1 as [|c cs1 cs2 _ IH|c cs1 cs2 _ IH]; cbn.
  - constructor.
  - by apply sublist_app.
  - by apply sublist_inserts_l.
Qed.

Lemma Node_get_oid (q : Path) (root n : Node) :
  Node_get q root = Ok n → node_oid n ∈ oids root.
Proof.
  revert root. induction q as [|p q IH]; intros root; cbn.
  - intros [= <-]. destruct root; cbn; left.
  - destruct root as [|o t a cs]; [done|].
    destruct (child_at cs p) as [c|] eqn:Hc; [|done].
    intros Hn. cbn. right. apply elem_of_oids_of.
    exists c. split; [|by apply IH].
    apply child_at_Some in Hc as [_ Hc].
    by apply list_elem_of_lookup_2 in Hc.
Qed.

(** ** Rebuilding the tree *)

(** The rebuilt node is the same object shell around new children. *)
Lemma modify_below_shell (path : Path) (f : list Node -> Result (list Node))
    (o : nat) (t : ElementType) (a : ElementProps) (cs : list Node)
    (root' : Node) :
  modify_below path f (Element o t a cs) = Ok root' →
  root' = Element o t a (node_children root').
Proof.
  destruct path as [|p rest]; cbn.
  - destruct (f cs); cbn; [|done]. by intros [= <-].
  - destruct (child_at cs p) as [c|]; [|done].
    destruct (modify_below rest f c); cbn; [|done]. by intros [= <-].
Qed.

(** After the edit the node at [path] holds the new children. *)
Lemma modify_below_get (path : Path) (f : list Node -> Result (list Node))
    (root : Node) (o : nat) (t : ElementType) (a : ElementProps)
    (cs cs' : list Node) :
  Node_get path root = Ok (Element o t a cs) →
  f cs = Ok cs' →
  ∃ root', modify_below path f root = Ok root'
           ∧ Node_get path root' = Ok (Element o t a cs').
Proof.
  intros Hget Hf. revert root Hget.
  induction path as [|p rest IH]; intros root; cbn.
  - intros [= ->]. cbn. rewrite Hf. cbn. by eexists.
  - destruct root as [|o0 t0 a0 cs0]; [done|].
    destruct (child_at cs0 p) as [c|] eqn:Hc; [|done].
    intros Hget. destruct (IH c Hget) as (c' & Hmod & Hget').
    rewrite Hmod. cbn. eexists. split; [reflexivity|].
    cbn. apply child_at_Some in Hc as [Hp Hc].
    unfold child_at. destruct (decide (p < 0)); [lia|].
    rewrite list_lookup_insert_eq; [exact Hget'|].
    by apply lookup_lt_Some in Hc.
Qed.

(** Positions that are neither above nor below the edited node keep their
    node. *)
Lemma modify_below_frame (path : Path) (f : list Node -> Result (list Node))
    (root root' : Node) (q : Path) :
  modify_below path f root = Ok root' →
  ¬ (q `prefix_of` path) → ¬ (path `prefix_of` q) →
  Node_get q root' = Node_get q root.
Proof.
  revert root root' q. induction path as [|p rest IH]; intros root root' q.
  - intros _ _ Hq. destruct Hq. apply prefix_nil.
  - destruct root as [|o t a cs]; [done|]. cbn.
    destruct (child_at cs p) as [c|] eqn:Hc; [|done].
    destruct (modify_below rest f c) as [c'|] eqn:Hmod; [|done].
    cbn. intros [= <-] Hq1 Hq2.
    destruct q as [|i q]; [destruct Hq1; apply prefix_nil|].
    cbn. apply child_at_Some in Hc as [Hp Hc].
    destruct (decide (i = p)) as [->|Hne].
    + unfold child_at. destruct (decide (p < 0)); [lia|].
      rewrite list_lookup_insert_eq by (by apply lookup_lt_Some in Hc).
      rewrite Hc. apply (IH c c' q Hmod).
      * intros Hpre. apply Hq1. by apply prefix_cons.
      * intros Hpre. apply Hq2. by apply prefix_cons.
    + unfold child_at. destruct (decide (i < 0)); [done|].
      rewrite list_lookup_insert_ne by lia. reflexivity.
Qed.

(** When the new children use no identity the old ones did not have, nor
    does the new tree. *)
Lemma modify_below_oids (path : Path) (f : list Node -> Result (list Node))
    (root root' : Node) :
  (∀ cs cs', f cs = Ok cs' → oids_of cs' `sublist_of` oids_of cs) →
  modify_below path f root = Ok root' →
  oids root' `sublist_of` oids root.
Proof.
  intros Hf. revert root root'.
  induction path as [|p rest IH]; intros root root';
    (destruct root as [|o t a cs]; [done|]); cbn.
  - destruct (f cs) as [cs'|] eqn:Hcs; [|done]. cbn. intros [= <-].
    cbn. apply sublist_skip, Hf, Hcs.
  - destruct (child_at cs p) as [c|] eqn:Hc; [|done].
    destruct (modify_below rest f c) as [c'|] eqn:Hmod; [|done].
    cbn. intros [= <-]. cbn. apply sublist_skip.
    apply child_at_Some in Hc as [Hp Hc].
    rewrite insert_take_drop by (by apply lookup_lt_Some in Hc).
    rewrite <- (take_drop_middle cs (Z.to_nat p) c Hc) at 3.
    change (flat_map oids ?l) with (oids_of l).
    rewrite !oids_of_app. apply sublist_app; [reflexivity|].
    change (oids_of (?x :: ?l)) with (oids x ++ oids_of l).
    apply sublist_app; [|reflexivity]. by apply (IH c c').
Qed.

(** ** The same facts about the editor *)

Lemma ref_type_with_children (r : NodeRef) (cs : list Node) :
  ref_type (with_children r cs) = ref_type r.
Proof. by destruct r as [|[]]. Qed.

Lemma modifyChildren_get (editor : Editor) (path : Path)
    (f : list Node -> Result (list Node)) (r : NodeRef)
    (cs cs' : list Node) :
  Editor_node editor path = Ok r →
  ref_children editor r = Some cs →
  f cs = Ok cs' →
  ∃ editor', modifyChildren editor path f = Ok editor'
             ∧ Editor_node editor' path = Ok (with_children r cs')
             ∧ ref_children editor' (with_children r cs') = Some cs'.
Proof.
  intros Hr Hcs Hf.
  destruct (ref_children_root_of _ _ _ _ Hr Hcs) as (o & t & a & Hget & Hcase).
  destruct (modify_below_get _ _ _ _ _ _ _ _ Hget Hf) as (root' & Hmod & Hget').
  rewrite modifyChildren_root_of, Hmod. cbn.
  eexists. split; [reflexivity|].
  apply modify_below_shell in Hmod as Hshell.
  rewrite Editor_node_root_of. unfold root_of at 1. cbn [children].
  rewrite <- Hshell, Hget'.
  destruct Hcase as [[-> ->]|[Hne ->]].
  - cbn in Hget'. injection Hget' as ->. done.
  - destruct path; done.
Qed.

Lemma modifyChildren_frame (editor editor' : Editor) (path : Path)
    (f : list Node -> Result (list Node)) (q : Path) :
  modifyChildren editor path f = Ok editor' →
  ¬ (q `prefix_of` path) → ¬ (path `prefix_of` q) →
  Editor_node editor' q = Editor_node editor q.
Proof.
  rewrite modifyChildren_root_of.
  destruct (modify_below path f (root_of editor)) as [root'|] eqn:Hmod;
    [|done].
  cbn. intros [= <-] Hq1 Hq2. rewrite !Editor_node_root_of.
  apply modify_below_shell in Hmod as Hshell.
  unfold root_of at 1. cbn [children]. rewrite <- Hshell.
  by rewrite (modify_below_frame _ _ _ _ q Hmod).
Qed.

Lemma modifyChildren_NoDup (editor editor' : Editor) (path : Path)
    (f : list Node -> Result (list Node)) :
  (∀ cs cs', f cs = Ok cs' → oids_of cs' `sublist_of` oids_of cs) →
  modifyChildren editor path f = Ok editor' →
  NoDup (oids_of (children editor)) →
  NoDup (oids_of (children editor')).
Proof.
  intros Hf. rewrite modifyChildren_root_of.
  destruct (modify_below path f (root_of editor)) as [root'|] eqn:Hmod;
    [|done].
  cbn. intros [= <-]. cbn.
  apply modify_below_shell in Hmod as Hshell.
  apply (modify_below_oids _ _ _ _ Hf) in Hmod.
  rewrite Hshell in Hmod. cbn in Hmod.
  fold (oids_of (node_children root')) in Hmod.
  fold (oids_of (children editor)) in Hmod.
  intros HND. apply (sublist_NoDup _ _ HND).
  apply sublist_cons_r in Hmod as [Hsub|(l' & [= <-] & Hsub)]; [|done].
  etrans; [|exact Hsub]. by apply sublist_cons.
Qed.

(** ** Lookup by identity *)

Lemma find_below_Element (target o : nat) (t : ElementType)
    (a : ElementProps) (cs : list Node) :
  find_below target (Element o t a cs) =
    if decide (o = target) then Some [] else find_among target 0 cs.
Proof.
  cbn. destruct (decide (o = target)); [reflexivity|].
  generalize 0%nat. induction cs as [|c cs IH]; intros i; [reflexivity|].
  cbn. destruct (find_below target c); [reflexivity | apply IH].
Qed.

Lemma find_among_Some (target : nat) (i : nat) (cs : list Node) (q : Path) :
  find_among target i cs = Some q →
  ∃ k c q', q = Z.of_nat (i + k) :: q' ∧ cs !! k = Some c
            ∧ find_below target c = Some q'.
Proof.
  revert i. induction cs as [|c cs IH]; intros i; cbn; [done|].
  destruct (find_below target c) as [q'|] eqn:Hc.
  - intros [= <-]. exists 0%nat, c, q'. by rewrite Nat.add_0_r.
  - intros (k & c' & q' & -> & Hk & Hc')%IH.
    exists (S k), c', q'. split; [f_equal; lia | done].
Qed.

(** The search only answers for an identity that occurs. *)
Lemma find_below_elem_of (target : nat) (q : Path) (root : Node) :
  find_below target root = Some q → target ∈ oids root.
Proof.
  revert root. induction q as [|z q IH]; intros [o lf|o t a cs].
  - cbn. destruct (decide (o = target)) as [->|]; [left | done].
  - rewrite find_below_Element. destruct (decide (o = target)) as [->|];
      [left | by intros (?&?&?&?&_)%find_among_Some].
  - cbn. by destruct (decide (o = target)).
  - rewrite find_below_Element. destruct (decide (o = target)); [done|].
    intros (k & c & q' & [= _ ->] & Hk & Hc)%find_among_Some.
    cbn. right. apply elem_of_oids_of. exists c.
    split; [by apply list_elem_of_lookup_2 in Hk | by apply IH].
Qed.

Lemma NoDup_oids_of_lookup (cs : list Node) (k : nat) (c : Node) :
  NoDup (oids_of cs) → cs !! k = Some c →
  NoDup (oids c)
  ∧ ∀ x, x ∈ oids c → x ∉ oids_of (take k cs).
Proof.
  intros HND Hk. rewrite <- (take_drop_middle cs k c Hk) in HND.
  rewrite oids_of_app in HND.
  change (oids_of (c :: ?l)) with (oids c ++ oids_of l) in HND.
  apply NoDup_app in HND as (_ & Hdisj & HND).
  apply NoDup_app in HND as (HND & _ & _).
  split; [exact HND|]. intros x Hx Hx'. apply (Hdisj x Hx').
  apply elem_of_app. by left.
Qed.

Lemma find_among_lookup (target : nat) (i : nat) (cs : list Node) (k : nat)
    (c : Node) (q : Path) :
  NoDup (oids_of cs) → cs !! k = Some c →
  find_below target c = Some q →
  find_among target i cs = Some (Z.of_nat (i + k) :: q).
Proof.
  intros HND Hk Hfind.
  destruct (NoDup_oids_of_lookup cs k c HND Hk) as [_ Hbefore].
  specialize (Hbefore target (find_below_elem_of _ _ _ Hfind)).
  clear HND. revert i k Hk Hbefore.
  induction cs as [|c0 cs IH]; intros i k Hk Hbefore; [done|].
  destruct k as [|k]; cbn in Hk |- *.
  - injection Hk as ->. by rewrite Hfind, Nat.add_0_r.
  - destruct (find_below target c0) as [q0|] eqn:H0.
    + destruct Hbefore. cbn. apply elem_of_app. left.
      by apply find_below_elem_of in H0.
    + rewrite (IH (S i) k Hk).
      * do 2 f_equal. lia.
      * intros Hin. apply Hbefore. cbn. apply elem_of_app. by right.
Qed.

(** Where identities are not shared, the search returns the position a
    node was looked up at. *)
Lemma find_below_get (q : Path) (root n : Node) :
  NoDup (oids root) → Node_get q root = Ok n →
  find_below (node_oid n) root = Some q.
Proof.
  revert root. induction q as [|p rest IH]; intros root HND; cbn.
  - intros [= <-]. destruct root; cbn; by rewrite decide_True.
  - destruct root as [|o t a cs]; [done|].
    destruct (child_at cs p) as [c|] eqn:Hc; [|done]. intros Hget.
    apply child_at_Some in Hc as [Hp Hc]. cbn in HND.
    apply NoDup_cons in HND as [Ho HND].
    rewrite find_below_Element, decide_False.
    + rewrite (find_among_lookup _ 0 cs (Z.to_nat p) c rest HND Hc).
      * do 2 f_equal. lia.
      * apply IH; [|exact Hget].
        by destruct (NoDup_oids_of_lookup cs _ c HND Hc).
    + intros ->. apply Ho, elem_of_oids_of. exists c.
      split; [by apply list_elem_of_lookup_2 in Hc|].
      by apply Node_get_oid in Hget.
Qed.

(** A document in which each object stands once, rendered as it stands,
    is on record node by node. *)
Lemma rendered_up_to_date (editor : Editor) :
  NoDup (oids_of (children editor)) →
  up_to_date (rendered (children editor)) editor.
Proof.
  intros HND q n. unfold rendered. destruct q as [|p rest]; [done|]. cbn.
  destruct (child_at (children editor) p) as [c|] eqn:Hc; [|done].
  destruct (Node_get rest c) as [n'|] eqn:Hget; [|done].
  cbn. intros [= <-]. apply child_at_Some in Hc as [Hp Hc].
  rewrite (find_among_lookup _ 0 _ (Z.to_nat p) c rest HND Hc).
  - do 2 f_equal. lia.
  - apply find_below_get; [|exact Hget].
    by destruct (NoDup_oids_of_lookup _ _ c HND Hc).
Qed.

(** What is on record for a node is what [findPath] answers, whatever the
    document has become since. *)
Lemma findPath_up_to_date (recorded : Rendered) (editor current : Editor)
    (q : Path) (n : Node) :
  up_to_date recorded editor →
  Editor_node editor q = Ok (ANode n) →
  findPath recorded current (ANode n) = Ok q.
Proof. intros Hrec Hn. unfold findPath. by rewrite (Hrec q n Hn). Qed.


(** ** Paths that end in an index *)

Lemma Path_parent_snoc (q : Path) (i : Z) :
  Path_parent (q ++ [i]) = Ok (q, i).
Proof. unfold Path_parent. by rewrite last_snoc, removelast_last. Qed.

Lemma Editor_node_app (editor : Editor) (q : Path) (i : Z) (q' : Path) :
  Editor_node editor (q ++ i :: q') =
    (r ← Editor_node editor q;
     match ref_children editor r with
     | Some cs =>
         match child_at cs i with
         | Some c => ANode <$> Node_get q' c
         | None => Throw OutOfBounds
         end
     | None => Throw OutOfBounds
     end).
Proof.
  rewrite !Editor_node_root_of. destruct q as [|p q].
  { cbn. by destruct (child_at (children editor) i). }
  cbn [app]. rewrite (Node_get_app (p :: q) (i :: q')).
  destruct (Node_get (p :: q) (root_of editor)) as [[|o t a cs]|]; try done.
  cbn. by destruct (child_at cs i).
Qed.

Lemma Editor_node_snoc (editor : Editor) (q : Path) (i : Z) (r : NodeRef)
    (cs : list Node) :
  Editor_node editor q = Ok r →
  ref_children editor r = Some cs →
  Editor_node editor (q ++ [i]) =
    match child_at cs i with
    | Some c => Ok (ANode c)
    | None => Throw OutOfBounds
    end.
Proof.
  intros Hr Hcs. rewrite Editor_node_app, Hr. cbn. rewrite Hcs.
  by destruct (child_at cs i).
Qed.


(** ** Insertion and removal at a child position *)

Lemma splice_in_app (cs acc : list Node) (n : Node) :
  splice_in (cs ++ acc) (Z.of_nat (length cs)) n = cs ++ n :: acc.
Proof.
  unfold splice_in. destruct (decide (Z.of_nat (length cs) < 0)); [lia|].
  rewrite Nat2Z.id, take_app_length, drop_app_length. reflexivity.
Qed.

(** At an index that is not below zero the insertion is the splice. *)
Lemma insertNodes_snoc (editor : Editor) (n : Node) (q : Path) (i : Z) :
  0 ≤ i →
  insertNodes editor n (q ++ [i])
  = modifyChildren editor q (fun cs =>
      if decide (Z.of_nat (length cs) < i) then Throw PastTheEnd
      else Ok (splice_in cs i n)).
Proof.
  intros Hi. unfold insertNodes. rewrite Path_parent_snoc.
  change (Ok ?x ≫= ?f) with (f x). cbv beta iota.
  destruct (modifyChildren editor q _) as [editor'|x]; [|done].
  change (Ok ?x ≫= ?f) with (f x). cbv beta. by rewrite decide_False by lia.
Qed.

Lemma insertNodes_child (editor : Editor) (q : Path) (r : NodeRef)
    (cs acc : list Node) (n : Node) :
  Editor_node editor q = Ok r →
  ref_children editor r = Some (cs ++ acc) →
  ∃ editor',
    insertNodes editor n (q ++ [Z.of_nat (length cs)]) = Ok editor'
    ∧ Editor_node editor' q = Ok (with_children r (cs ++ n :: acc))
    ∧ ref_children editor' (with_children r (cs ++ n :: acc))
      = Some (cs ++ n :: acc).
Proof.
  intros Hr Hcs. rewrite insertNodes_snoc by lia.
  eapply modifyChildren_get; [exact Hr | exact Hcs |].
  cbn. rewrite decide_False by (rewrite length_app; lia).
  by rewrite splice_in_app.
Qed.

Lemma removeNodes_child (editor : Editor) (q : Path) (r : NodeRef)
    (pre post : list Node) (c : Node) :
  Editor_node editor q = Ok r →
  ref_children editor r = Some (pre ++ c :: post) →
  NoDup (oids_of (children editor)) →
  ∃ editor',
    removeNodes editor (q ++ [Z.of_nat (length pre)]) = Ok editor'
    ∧ Editor_node editor' q = Ok (with_children r (pre ++ post))
    ∧ ref_children editor' (with_children r (pre ++ post))
      = Some (pre ++ post)
    ∧ NoDup (oids_of (children editor')).
Proof.
  intros Hr Hcs HND. unfold removeNodes. rewrite Path_parent_snoc. cbn.
  set (f := fun cs : list Node =>
              match child_at cs (Z.of_nat (length pre)) with
              | Some _ => Ok (delete (Z.to_nat (Z.of_nat (length pre))) cs)
              | None => Throw OutOfBounds
              end).
  destruct (modifyChildren_get editor q f r _ (pre ++ post) Hr Hcs)
    as (editor' & Hmod & Hget & Hch).
  { unfold f. rewrite child_at_middle, Nat2Z.id. by rewrite delete_middle. }
  exists editor'. repeat (split; [done|]).
  apply (modifyChildren_NoDup editor editor' q f); [|done|done].
  intros cs0 cs0'. unfold f. destruct (child_at cs0 _); [|done].
  intros [= <-]. apply oids_of_sublist, sublist_delete.
Qed.

End SlateFacts.

(** * Properties of the source *)

Import Slate SlateFacts EditorInterface.

(** ** Indexing after an update *)

Lemma child_at_insert_eq (cs : list Node) (i : Z) (c w : Node) :
  child_at cs i = Some c → child_at (<[Z.to_nat i := w]> cs) i = Some w.
Proof.
  intros [Hi Hc]%child_at_Some. apply child_at_Some. split; [done|].
  apply list_lookup_insert_eq. by apply lookup_lt_Some in Hc.
Qed.


(** ** Edits at one node, one after the other *)

Lemma modify_below_ext (path : Path) (f g : list Node -> Result (list Node))
    (root : Node) (o : nat) (t : ElementType) (a : ElementProps)
    (cs : list Node) :
  Node_get path root = Ok (Element o t a cs) →
  f cs = g cs →
  modify_below path f root = modify_below path g root.
Proof.
  intros Hget Hfg. revert root Hget.
  induction path as [|p rest IH]; intros root; cbn.
  - intros [= ->]. cbn. by rewrite Hfg.
  - destruct root as [|o0 t0 a0 cs0]; [done|].
    destruct (child_at cs0 p) as [c|]; [|done].
    intros Hget. by rewrite (IH c Hget).
Qed.

Lemma modify_below_compose (path : Path)
    (f g : list Node -> Result (list Node)) (root root1 : Node) :
  modify_below path f root = Ok root1 →
  modify_below path g root1 = modify_below path (fun cs => f cs ≫= g) root.
Proof.
  revert root root1. induction path as [|p rest IH]; intros root root1;
    (destruct root as [|o t a cs]; [done|]); cbn.
  - destruct (f cs) as [cs1|]; [|done]. cbn. by intros [= <-].
  - destruct (child_at cs p) as [c|] eqn:Hc; [|done].
    destruct (modify_below rest f c) as [c1|] eqn:Hmod; [|done].
    cbn. intros [= <-]. cbn. rewrite (child_at_insert_eq cs p c c1 Hc).
    rewrite (IH c c1 Hmod).
    destruct (modify_below rest (fun cs => f cs ≫= g) c); [|done].
    cbn. by rewrite list_insert_insert_eq.
Qed.

Lemma modify_below_same (path : Path) (root : Node) (o : nat)
    (t : ElementType) (a : ElementProps) (cs : list Node) :
  Node_get path root = Ok (Element o t a cs) →
  modify_below path (fun _ => Ok cs) root = Ok root.
Proof.
  revert root. induction path as [|p rest IH]; intros root; cbn.
  - by intros [= ->].
  - destruct root as [|o0 t0 a0 cs0]; [done|].
    destruct (child_at cs0 p) as [c|] eqn:Hc; [|done].
    intros Hget. rewrite (IH c Hget). cbn.
    apply child_at_Some in Hc as [_ Hc]. by rewrite list_insert_id.
Qed.

Lemma root_of_modified (editor : Editor) (path : Path)
    (f : list Node -> Result (list Node)) (root' : Node) :
  modify_below path f (root_of editor) = Ok root' →
  root_of (mkEditor (node_children root') (selection editor)) = root'.
Proof. intros Hmod. by apply modify_below_shell in Hmod as ->. Qed.

Lemma modifyChildren_compose (editor editor1 : Editor) (path : Path)
    (f g : list Node -> Result (list Node)) :
  modifyChildren editor path f = Ok editor1 →
  modifyChildren editor1 path g
  = modifyChildren editor path (fun cs => f cs ≫= g).
Proof.
  rewrite !modifyChildren_root_of.
  destruct (modify_below path f (root_of editor)) as [root1|] eqn:Hmod; [|done].
  cbn. intros [= <-]. rewrite (root_of_modified _ _ _ _ Hmod).
  by rewrite (modify_below_compose _ _ _ _ _ Hmod).
Qed.

Lemma setChildren_of_modify (editor : Editor) (path : Path)
    (f : list Node -> Result (list Node)) (r : NodeRef) (cs cs' : list Node) :
  Editor_node editor path = Ok r →
  ref_children editor r = Some cs →
  f cs = Ok cs' →
  modifyChildren editor path f = setChildren editor path cs'.
Proof.
  intros Hr Hcs Hf. unfold setChildren. rewrite !modifyChildren_root_of.
  destruct (ref_children_root_of _ _ _ _ Hr Hcs) as (o & t & a & Hget & _).
  by rewrite (modify_below_ext _ f (fun _ => Ok cs') _ _ _ _ _ Hget Hf).
Qed.

Lemma setChildren_twice (editor editor1 : Editor) (path : Path)
    (cs1 cs2 : list Node) :
  setChildren editor path cs1 = Ok editor1 →
  setChildren editor1 path cs2 = setChildren editor path cs2.
Proof.
  unfold setChildren. intros H1.
  by rewrite (modifyChildren_compose _ _ _ _ (fun _ => Ok cs2) H1).
Qed.

Lemma setChildren_same (editor : Editor) (path : Path) (r : NodeRef)
    (cs : list Node) :
  Editor_node editor path = Ok r →
  ref_children editor r = Some cs →
  setChildren editor path cs = Ok editor.
Proof.
  intros Hr Hcs. unfold setChildren. rewrite modifyChildren_root_of.
  destruct (ref_children_root_of _ _ _ _ Hr Hcs) as (o & t & a & Hget & _).
  rewrite (modify_below_same _ _ _ _ _ _ Hget). cbn. by destruct editor.
Qed.

Lemma setChildren_get (editor : Editor) (path : Path) (r : NodeRef)
    (cs cs' : list Node) :
  Editor_node editor path = Ok r →
  ref_children editor r = Some cs →
  ∃ editor', setChildren editor path cs' = Ok editor'
             ∧ Editor_node editor' path = Ok (with_children r cs')
             ∧ ref_children editor' (with_children r cs') = Some cs'.
Proof.
  intros Hr Hcs.
  by apply (modifyChildren_get editor path (fun _ => Ok cs') r cs cs').
Qed.

(** The identities in use before and after an edit of the children of one
    node differ only in the part that belongs to those children. *)
Lemma modify_below_oids_split (path : Path)
    (f : list Node -> Result (list Node)) (root root' : Node) (o : nat)
    (t : ElementType) (a : ElementProps) (cs cs' : list Node) :
  Node_get path root = Ok (Element o t a cs) →
  f cs = Ok cs' →
  modify_below path f root = Ok root' →
  ∃ before after,
    oids root = before ++ oids_of cs ++ after
    ∧ oids root' = before ++ oids_of cs' ++ after
    ∧ before ≠ [].
Proof.
  intros Hget Hf. revert root root' Hget.
  induction path as [|p rest IH]; intros root root'; cbn.
  - intros [= ->]. cbn. rewrite Hf. cbn. intros [= <-].
    exists [o], []. cbn. by rewrite !app_nil_r.
  - destruct root as [|o0 t0 a0 cs0]; [done|].
    destruct (child_at cs0 p) as [c|] eqn:Hc; [|done].
    intros Hget. destruct (modify_below rest f c) as [c'|] eqn:Hmod; [|done].
    cbn. intros [= <-].
    destruct (IH c c' Hget Hmod) as (before & after & Hb & Ha & _).
    apply child_at_Some in Hc as [Hp Hc].
    exists (o0 :: oids_of (take (Z.to_nat p) cs0) ++ before),
           (after ++ oids_of (drop (S (Z.to_nat p)) cs0)).
    split; [|split; [|done]].
    + cbn. f_equal. rewrite <- (take_drop_middle cs0 (Z.to_nat p) c Hc) at 1.
      change (flat_map oids ?l) with (oids_of l). rewrite oids_of_app.
      change (oids_of (c :: ?l)) with (oids c ++ oids_of l).
      rewrite Hb. by rewrite <- !app_assoc.
    + cbn. f_equal.
      rewrite insert_take_drop by (by apply lookup_lt_Some in Hc).
      change (flat_map oids ?l) with (oids_of l). rewrite oids_of_app.
      change (oids_of (c' :: ?l)) with (oids c' ++ oids_of l).
      rewrite Ha. by rewrite <- !app_assoc.
Qed.

Lemma modifyChildren_oids_split (editor editor' : Editor) (path : Path)
    (f : list Node -> Result (list Node)) (r : NodeRef) (cs cs' : list Node) :
  Editor_node editor path = Ok r →
  ref_children editor r = Some cs →
  f cs = Ok cs' →
  modifyChildren editor path f = Ok editor' →
  ∃ before after,
    oids_of (children editor) = before ++ oids_of cs ++ after
    ∧ oids_of (children editor') = before ++ oids_of cs' ++ after.
Proof.
  intros Hr Hcs Hf. rewrite modifyChildren_root_of.
  destruct (ref_children_root_of _ _ _ _ Hr Hcs) as (o & t & a & Hget & _).
  destruct (modify_below path f (root_of editor)) as [root'|] eqn:Hmod; [|done].
  cbn. intros [= <-]. cbn.
  destruct (modify_below_oids_split _ _ _ _ _ _ _ _ _ Hget Hf Hmod)
    as (before & after & Hb & Ha & Hne).
  apply modify_below_shell in Hmod as Hshell. rewrite Hshell in Ha.
  destruct before as [|o0 before]; [done|]. cbn in Hb, Ha.
  injection Hb as _ Hb. injection Ha as _ Ha.
  by exists before, after.
Qed.

(** ** Edits that fail *)

Lemma Node_get_throws (path : Path) (root : Node) (x : Exn) :
  Node_get path root = Throw x → x = OutOfBounds.
Proof.
  revert root. induction path as [|p rest IH]; intros root; cbn; [done|].
  destruct root as [|o t a cs]; [by intros [= <-]|].
  destruct (child_at cs p) as [c|]; [apply IH | by intros [= <-]].
Qed.

Lemma Editor_node_throws (editor : Editor) (path : Path) (x : Exn) :
  Editor_node editor path = Throw x → x = OutOfBounds.
Proof.
  rewrite Editor_node_root_of. destruct path as [|p rest]; [done|].
  destruct (Node_get (p :: rest) (root_of editor)) as [n|y] eqn:Hget; [done|].
  cbn. intros [= <-]. by apply Node_get_throws in Hget.
Qed.

Lemma modify_below_throws (path : Path) (f : list Node -> Result (list Node))
    (root : Node) :
  match Node_get path root with
  | Ok (Element _ _ _ cs) =>
      ∀ x, f cs = Throw x → modify_below path f root = Throw x
  | _ => modify_below path f root = Throw OutOfBounds
  end.
Proof.
  revert root. induction path as [|p rest IH]; intros root; cbn.
  - destruct root as [|o t a cs]; [done|]. cbn. by intros x ->.
  - destruct root as [|o t a cs]; [done|].
    destruct (child_at cs p) as [c|]; [|done].
    specialize (IH c). destruct (Node_get rest c) as [[|o' t' a' cs']|].
    + by rewrite IH.
    + intros x Hx. by rewrite (IH x Hx).
    + by rewrite IH.
Qed.

Lemma modifyChildren_throws (editor : Editor) (path : Path)
    (f : list Node -> Result (list Node)) (r : NodeRef) (cs : list Node)
    (x : Exn) :
  Editor_node editor path = Ok r →
  ref_children editor r = Some cs →
  f cs = Throw x →
  modifyChildren editor path f = Throw x.
Proof.
  intros Hr Hcs Hf. rewrite modifyChildren_root_of.
  destruct (ref_children_root_of _ _ _ _ Hr Hcs) as (o & t & a & Hget & _).
  pose proof (modify_below_throws path f (root_of editor)) as H.
  rewrite Hget in H. by rewrite (H x Hf).
Qed.

Lemma modifyChildren_invalid (editor : Editor) (path : Path)
    (f : list Node -> Result (list Node)) :
  (∀ r cs, Editor_node editor path = Ok r →
           ref_children editor r = Some cs → False) →
  modifyChildren editor path f = Throw OutOfBounds.
Proof.
  intros Hnone. rewrite modifyChildren_root_of.
  pose proof (modify_below_throws path f (root_of editor)) as H.
  destruct (Node_get path (root_of editor)) as [[o lf|o t a cs]|] eqn:Hget.
  - by rewrite H.
  - destruct (Hnone (match path with [] => TheEditor
                      | _ => ANode (Element o t a cs) end) cs).
    + rewrite Editor_node_root_of. destruct path; [done|]. by rewrite Hget.
    + destruct path; [|done]. cbn in Hget. by injection Hget as _ _ _ <-.
  - by rewrite H.
Qed.

(** ** Type classification *)

Lemma getNodeType_by_path (editorState : Editor) (path : Path) :
  getNodeType (IsEditor editorState) (Some path) =
    (r ← getNode editorState path; Ok (ref_type r)).
Proof.
  unfold getNodeType. destruct (getNode editorState path) as [[|[]]|]; done.
Qed.

Lemma getNodeType_by_node (n : Node) :
  getNodeType (IsNode n) None = Ok (ref_type (ANode n)).
Proof. by destruct n. Qed.

Lemma getNode_nil_iff (editorState : Editor) (path : Path) (r : NodeRef) :
  getNode editorState path = Ok r → (path = [] ↔ r = TheEditor).
Proof.
  unfold getNode. rewrite Editor_node_root_of. destruct path as [|p rest].
  - by intros [= <-].
  - destruct (Node_get _ _); cbn; [|done]. by intros [= <-].
Qed.

(** C9.  A call of [getNodeType] with an editor as first argument and no
    path does not look at any node and does not return [null]: it throws
    the error "Path must be provided when the first argument is an
    Editor", whatever the editor holds. *)
Theorem getNodeType_editor_without_path (editorState : Editor) :
  getNodeType (IsEditor editorState) None =
    Throw (Error "Path must be provided when the first argument is an Editor")
  ∧ ∀ result : option ElementType,
      getNodeType (IsEditor editorState) None ≠ Ok result.
Proof.
  split.
  - reflexivity.
  - intros result Hreturned. discriminate Hreturned.
Qed.

(** C8, as stated, fails at the root path: the lookup returns the editor
    object, which the node overload takes for its editor argument and
    rejects for want of a path, while the path overload returns [null]. *)
Lemma getNodeType_overloads_differ_at_root :
  ¬ (∀ (editorState : Editor) (path : Path) (r : NodeRef),
       getNode editorState path = Ok r →
       getNodeType (IsEditor editorState) (Some path) =
         getNodeType (as_argument editorState r) None).
Proof.
  intros H.
  specialize (H (mkEditor [Element 0 Paragraph no_props [Text 1 (plain "a")]]
                   None) [] TheEditor eq_refl).
  discriminate H.
Qed.

(** C8, amended.  For every tree and every valid path other than the root
    path, [getNodeType(tree, path)] equals [getNodeType(getNode(tree, path))];
    the common result is the type of the node when it is an element and
    [null] when it is a text leaf.  On the root path the first returns
    [null] and the second throws. *)
Theorem getNodeType_overloads_agree (editorState : Editor) (path : Path)
    (r : NodeRef) :
  getNode editorState path = Ok r →
  (path ≠ [] →
   getNodeType (IsEditor editorState) (Some path) =
     getNodeType (as_argument editorState r) None
   ∧ getNodeType (IsEditor editorState) (Some path) = Ok (ref_type r)
   ∧ (∀ o lf, r = ANode (Text o lf) →
        getNodeType (as_argument editorState r) None = Ok None))
  ∧ (path = [] →
     getNodeType (IsEditor editorState) (Some path) = Ok None
     ∧ getNodeType (as_argument editorState r) None =
         Throw (Error
           "Path must be provided when the first argument is an Editor")).
Proof.
  intros Hr. split.
  - intros Hpath. rewrite getNodeType_by_path, Hr. cbn.
    destruct r as [|n].
    + destruct Hpath. by apply (getNode_nil_iff _ _ _ Hr).
    + cbn [as_argument]. rewrite getNodeType_by_node.
      split; [done|]. split; [done|]. by intros o lf [= ->].
  - intros ->. injection Hr as <-. by split.
Qed.

Lemma getNodeType_overloads_agree_witness :
  let editorState :=
    mkEditor [Element 0 Paragraph no_props [Text 1 (plain "a")]] None in
  getNodeType (IsEditor editorState) (Some [0; 0]) =
    getNodeType (as_argument editorState (ANode (Text 1 (plain "a")))) None
  ∧ getNodeType (IsEditor editorState) (Some [0; 0]) = Ok None.
Proof.
  intros editorState.
  destruct (getNodeType_overloads_agree editorState [0; 0]
              (ANode (Text 1 (plain "a")))) as [Hbelow _].
  - reflexivity.
  - destruct Hbelow as (H1 & H2 & _).
    + discriminate.
    + split; [exact H1 | exact H2].
Defined.

(** ** Node addressing *)

(** C10.  [getNodeParent] on the root path does not fail: dropping the last
    segment of the empty path gives the empty path again, so the result is
    the document root paired with the root path; on any longer path the
    parent path is the path without its last segment. *)
Theorem getNodeParent_root (editorState : Editor) :
  getNodeParent editorState [] = Ok (TheEditor, [])
  ∧ ref_children editorState TheEditor = Some (children editorState)
  ∧ ∀ (path : Path) (i : Z),
      getNodeParent editorState (path ++ [i]) =
        (parent ← getNode editorState path; Ok (parent, path)).
Proof.
  split; [reflexivity|]. split; [reflexivity|].
  intros path i. unfold getNodeParent. by rewrite removelast_last.
Qed.

(** ** Node generation *)

(** C5.  Without options, [generateNewNode] returns an object with exactly
    the fields [type], [children] and [ideas]: [type] is the requested type,
    [ideas] is the empty array, and [children] holds one child, which for the
    two list types is a list item of the matching kind around one text leaf
    with the initial text, and for every other type is that text leaf itself.
    With options, every field the options have takes the options' value and
    every other field is as without options.  [generateNewNode] of the
    unordered list type and "milk" is a container with one list item with one
    leaf [{ text: "milk" }], and an empty [ideas]. *)
Theorem generateNewNode_skeleton (type : ElementType) (content : string)
    (options : Object) :
  let generated := generateNewNode type content None in
  dom generated = ({[ "type"; "children"; "ideas" ]} : gset string)
  ∧ generated !! "type" = Some (VString (ElementType_value type))
  ∧ generated !! "ideas" = Some (VArray [])
  ∧ generated !! "children" =
      Some (VArray [match type with
                    | ListOrdered => item_object ListOrderedItem content
                    | ListUnordered => item_object ListUnorderedItem content
                    | _ => leaf_object content
                    end])
  ∧ (∀ field : string,
       generateNewNode type content (Some options) !! field =
         match options !! field with
         | Some v => Some v
         | None => generated !! field
         end)
  ∧ generateNewNode ListUnordered "milk" None =
      <["type" := VString "list-unordered"]>
      (<["children" :=
           VArray [VObject
             (<["type" := VString "list-unordered-item"]>
              (<["children" := VArray [VObject {[ "text" := VString "milk" ]}]]>
               ∅))]]>
      (<["ideas" := VArray []]> ∅)).
Proof.
  cbv zeta. split; [by destruct type; vm_compute|].
  split; [by destruct type; vm_compute|].
  split; [by destruct type; vm_compute|].
  split; [by destruct type; vm_compute|].
  split; [|by vm_compute].
  intros field. unfold generateNewNode, spread.
  destruct (decide (type = ListOrdered ∨ type = ListUnordered));
    cbn [default id]; rewrite !lookup_union, lookup_empty;
    by destruct (options !! field), (_ !! field).
Qed.

(** ** Idea management *)

(** C3.  On a path whose node is an image, an ordered list item or an
    unordered list item, [addIdeasToNode] returns normally and leaves the
    editor, hence the target's children and the whole tree, as it was,
    whatever ideas are passed. *)
Theorem addIdeasToNode_declined (editorState : Editor) (path : Path)
    (ideas : list Node) (t : ElementType) :
  getNodeType (IsEditor editorState) (Some path) = Ok (Some t) →
  t = Image ∨ t = ListOrderedItem ∨ t = ListUnorderedItem →
  addIdeasToNode editorState path ideas = Ok editorState.
Proof.
  rewrite getNodeType_by_path. unfold addIdeasToNode.
  destruct (getNode editorState path) as [r|]; [|done]. cbn.
  intros [= ->] Ht. rewrite decide_True; [done|].
  destruct Ht as [->|[->| ->]]; auto.
Qed.

Lemma addIdeasToNode_declined_witness :
  let image := Element 1 Image (mkElementProps None (Some "u") (Some "a") None)
                 [Text 2 (plain "")] in
  let editorState := mkEditor [image] None in
  addIdeasToNode editorState [0]
    [Element 3 Idea no_props [Text 4 (plain "x")]] = Ok editorState.
Proof.
  intros image editorState.
  apply (addIdeasToNode_declined editorState [0] _ Image).
  - reflexivity.
  - left. reflexivity.
Defined.

(** ** Cursor and lists *)

(** C6, at the input where the code departs from it.  With no selection
    [getSelectedRootNode] returns the index [-1], the test [rootNode && ...]
    does not stop there, and the lookup of the node at path [[-1]] throws:
    the function does not return [-1]. *)
Theorem getIndexOfCurrentListItem_no_selection (editorState : Editor) :
  selection editorState = None →
  getSelectedRootNode editorState = Ok (mkSelectedRootNode None (-1))
  ∧ isNodeAList editorState (inl [-1]) = Throw OutOfBounds
  ∧ getIndexOfCurrentListItem editorState = Throw OutOfBounds
  ∧ getIndexOfCurrentListItem editorState ≠ Ok (Num (-1)).
Proof.
  intros Hnone.
  assert (Hroot : getSelectedRootNode editorState
                  = Ok (mkSelectedRootNode None (-1))).
  { unfold getSelectedRootNode. by rewrite Hnone. }
  assert (Hlist : isNodeAList editorState (inl [-1]) = Throw OutOfBounds).
  { unfold isNodeAList, getNodeType, getNode. reflexivity. }
  assert (Hthrows : getIndexOfCurrentListItem editorState = Throw OutOfBounds).
  { unfold getIndexOfCurrentListItem. rewrite Hroot.
    change (Ok ?x ≫= ?f) with (f x). cbv beta. cbn [index].
    by rewrite Hlist. }
  split; [exact Hroot|]. split; [exact Hlist|]. split; [exact Hthrows|].
  rewrite Hthrows. discriminate.
Qed.

Lemma getIndexOfCurrentListItem_no_selection_witness :
  getIndexOfCurrentListItem
    (mkEditor [Element 0 Paragraph no_props [Text 1 (plain "a")]] None)
  = Throw OutOfBounds.
Proof.
  apply (getIndexOfCurrentListItem_no_selection
           (mkEditor [Element 0 Paragraph no_props [Text 1 (plain "a")]] None)).
  reflexivity.
Defined.

(** The two list predicates on a path, in one test. *)
Lemma isNodeAList_by_path (editorState : Editor) (p : Path) :
  isNodeAList editorState (inl p) =
    (t ← getNodeType (IsEditor editorState) (Some p);
     Ok (bool_decide (t = Some ListOrdered ∨ t = Some ListUnordered))).
Proof.
  unfold isNodeAList.
  destruct (getNodeType (IsEditor editorState) (Some p)) as [t|]; [|done].
  cbn. repeat case_decide; subst; try done;
    symmetry; f_equal; (apply bool_decide_eq_true_2 || apply bool_decide_eq_false_2);
    naive_solver.
Qed.

Lemma isNodeAListItem_by_path (editorState : Editor) (p : Path) :
  isNodeAListItem editorState (inl p) =
    (t ← getNodeType (IsEditor editorState) (Some p);
     Ok (bool_decide (t = Some ListOrderedItem ∨ t = Some ListUnorderedItem))).
Proof.
  unfold isNodeAListItem.
  destruct (getNodeType (IsEditor editorState) (Some p)) as [t|]; [|done].
  cbn. repeat case_decide; subst; try done;
    symmetry; f_equal; (apply bool_decide_eq_true_2 || apply bool_decide_eq_false_2);
    naive_solver.
Qed.

Lemma getIndexOfCurrentListItem_selected (editorState : Editor) (sel : Range)
    (i : Z) (rest : Path) (t : option ElementType) :
  selection editorState = Some sel →
  path (anchor sel) = i :: rest →
  getNodeType (IsEditor editorState) (Some [i]) = Ok t →
  getIndexOfCurrentListItem editorState =
    Ok (if bool_decide (t = Some ListOrdered ∨ t = Some ListUnordered)
        then segment (i :: rest) 1 else Num (-1)).
Proof.
  intros Hsel Hpath Ht.
  unfold getIndexOfCurrentListItem, getSelectedRootNode, getCursorPosition.
  rewrite Hsel, Hpath. rewrite getNodeType_by_path in Ht. unfold getNode in Ht.
  destruct (Editor_node editorState [i]) as [r|] eqn:Hr; [|done].
  change (Ok r ≫= ?f) with (f r). cbv beta.
  change (Ok ?a ≫= ?f) with (f a). cbv beta. cbn [index].
  rewrite isNodeAList_by_path, getNodeType_by_path. unfold getNode.
  rewrite Hr. cbn in Ht |- *. injection Ht as <-. by case_bool_decide.
Qed.

(** X27.  With a selection whose root ancestor is a list container the
    result is the second segment of the cursor path, and [undefined] when
    the cursor path has one segment only. *)
Lemma getIndexOfCurrentListItem_in_list (editorState : Editor) (sel : Range)
    (i : Z) (rest : Path) (t : ElementType) :
  selection editorState = Some sel →
  path (anchor sel) = i :: rest →
  getNodeType (IsEditor editorState) (Some [i]) = Ok (Some t) →
  t = ListOrdered ∨ t = ListUnordered →
  getIndexOfCurrentListItem editorState = Ok (segment (i :: rest) 1).
Proof.
  intros Hsel Hpath Ht Hlist.
  rewrite (getIndexOfCurrentListItem_selected _ _ _ _ _ Hsel Hpath Ht).
  rewrite bool_decide_eq_true_2; [done|].
  destruct Hlist as [->| ->]; auto.
Qed.

(** X28.  With a selection whose root ancestor is found and is anything
    but a list container, a text leaf included, the result is [-1]. *)
Lemma getIndexOfCurrentListItem_outside_list (editorState : Editor)
    (sel : Range) (i : Z) (rest : Path) (t : option ElementType) :
  selection editorState = Some sel →
  path (anchor sel) = i :: rest →
  getNodeType (IsEditor editorState) (Some [i]) = Ok t →
  t ≠ Some ListOrdered → t ≠ Some ListUnordered →
  getIndexOfCurrentListItem editorState = Ok (Num (-1)).
Proof.
  intros Hsel Hpath Ht Hno Hnu.
  rewrite (getIndexOfCurrentListItem_selected _ _ _ _ _ Hsel Hpath Ht).
  rewrite bool_decide_eq_false_2; [done|]. by intros [?|?].
Qed.

(** The scenario of the specification: root child 1 is an ordered list and
    the anchor is at [[1; 2; 0]]. *)
Example getIndexOfCurrentListItem_scenario :
  let item o := Element o ListOrderedItem no_props [Text (S o) (plain "")] in
  let document :=
    [Element 0 Paragraph no_props [Text 1 (plain "intro")];
     Element 2 ListOrdered no_props [item 3%nat; item 5%nat; item 7%nat]] in
  let caret := mkPoint [1; 2; 0] 0 in
  getIndexOfCurrentListItem (mkEditor document (Some (mkRange caret caret)))
  = Ok (Num 2).
Proof. reflexivity. Qed.

(** ** Attaching ideas *)

(** The loop of [addIdeasToNode] on a node below the root.  [node] was read
    before the loop, so [node.children.length] is the number of children the
    node had then, at every turn: each idea goes in at that same index, in
    front of the ideas inserted before it. *)
Lemma addIdeasToNode_loop_below (ideas : list Node) :
  ∀ (editorState : Editor) (path : Path) (o : nat) (t : ElementType)
    (a : ElementProps) (cs acc : list Node),
    getNode editorState path = Ok (ANode (Element o t a (cs ++ acc))) →
    ∃ editorState',
      forEach (fun editorState idea =>
                 len ← children_length editorState (ANode (Element o t a cs));
                 insertNode editorState idea (path ++ [len]))
              ideas editorState = Ok editorState'
      ∧ getNode editorState' path
        = Ok (ANode (Element o t a (cs ++ reverse ideas ++ acc))).
Proof.
  induction ideas as [|idea ideas IH]; intros editorState path o t a cs acc Hget.
  - exists editorState. by rewrite forEach_nil.
  - destruct (insertNodes_child editorState path _ cs acc idea Hget eq_refl)
      as (editorState1 & Hins & Hget1 & _).
    destruct (IH editorState1 path o t a cs (idea :: acc) Hget1)
      as (editorState' & Hloop & Hget').
    rewrite forEach_cons.
    replace (children_length editorState (ANode (Element o t a cs))
             ≫= (λ len, insertNode editorState idea (path ++ [len])))
      with (Ok editorState1) by (symmetry; exact Hins).
    exists editorState'. split; [exact Hloop|].
    by rewrite reverse_cons, <- app_assoc.
Qed.



(** *** Edits that leave the normalisation pass idle *)

Lemma forallb_inserted {A : Type} (f : A -> bool) (l : list A) (i : nat)
    (x : A) :
  forallb f l = true → f x = true → forallb f (<[i := x]> l) = true.
Proof.
  revert i. induction l as [|y l IH]; intros i; cbn; [done|].
  intros [Hy Hl]%andb_prop Hx. destruct i as [|i]; cbn.
  - by rewrite Hx, Hl.
  - by rewrite Hy, IH.
Qed.

Lemma forallb_deleted {A : Type} (f : A -> bool) (l : list A) (i : nat) :
  forallb f l = true → forallb f (delete i l) = true.
Proof.
  revert i. induction l as [|y l IH]; intros i; cbn; [done|].
  intros [Hy Hl]%andb_prop. destruct i as [|i]; cbn; [done|].
  by rewrite Hy, IH.
Qed.

Lemma forallb_spliced (cs : list Node) (i : Z) (n : Node) :
  forallb is_element cs = true → is_element n = true →
  forallb is_element (splice_in cs i n) = true.
Proof.
  intros Hcs Hn. unfold splice_in. set (k := if decide (i < 0) then _ else _).
  rewrite <- (take_drop k cs), forallb_app in Hcs.
  apply andb_prop in Hcs as [Htake Hdrop].
  rewrite forallb_app. cbn. by rewrite Htake, Hn, Hdrop.
Qed.

(** An edit of the children of the node at [path] that leaves elements
    only keeps the way down to [path] free of text leaves. *)
Lemma modify_below_blocks (path : Path)
    (f : list Node -> Result (list Node)) (root root' : Node) :
  (∀ cs cs', f cs = Ok cs' → forallb is_element cs = true →
             forallb is_element cs' = true) →
  modify_below path f root = Ok root' →
  blocks_below path root = true → blocks_below path root' = true.
Proof.
  intros Hf. revert root root'.
  induction path as [|p rest IH]; intros root root';
    (destruct root as [|o t a cs]; [done|]); cbn.
  - destruct (f cs) as [cs'|] eqn:Hcs; [|done]. cbn. intros [= <-].
    rewrite !andb_true_r. by apply Hf.
  - destruct (child_at cs p) as [c|] eqn:Hc; [|done].
    destruct (modify_below rest f c) as [c'|] eqn:Hmod; [|done].
    cbn. intros [= <-] [Hcs Hbelow]%andb_prop. cbn.
    apply child_at_Some in Hc as [Hp Hc].
    assert (Hc' : is_element c' = true).
    { destruct c as [|o0 t0 a0 cs0]; [by destruct rest|].
      by apply modify_below_shell in Hmod as ->. }
    rewrite (forallb_inserted _ _ _ _ Hcs Hc'). cbn.
    unfold child_at. rewrite decide_False by lia.
    rewrite list_lookup_insert_eq by (by apply lookup_lt_Some in Hc).
    by apply (IH c c').
Qed.

Lemma modifyChildren_blocks (editor editor' : Editor) (path : Path)
    (f : list Node -> Result (list Node)) :
  (∀ cs cs', f cs = Ok cs' → forallb is_element cs = true →
             forallb is_element cs' = true) →
  modifyChildren editor path f = Ok editor' →
  blocks_along editor path = true → blocks_along editor' path = true.
Proof.
  intros Hf. rewrite modifyChildren_root_of.
  destruct (modify_below path f (root_of editor)) as [root'|] eqn:Hmod;
    [|done].
  cbn. intros [= <-]. unfold blocks_along.
  apply modify_below_shell in Hmod as Hshell.
  unfold root_of at 2. cbn [children]. rewrite <- Hshell.
  by apply (modify_below_blocks path f).
Qed.

Lemma blocks_below_children (path : Path) (root : Node) (o : nat)
    (t : ElementType) (a : ElementProps) (cs : list Node) :
  blocks_below path root = true →
  Node_get path root = Ok (Element o t a cs) →
  forallb is_element cs = true.
Proof.
  revert root. induction path as [|p rest IH]; intros root; cbn.
  - destruct root as [|o0 t0 a0 cs0]; [done|].
    intros [Hcs _]%andb_prop [= _ _ _ <-]. exact Hcs.
  - destruct root as [|o0 t0 a0 cs0]; [done|].
    destruct (child_at cs0 p) as [c|]; [|by rewrite andb_false_r].
    intros [_ Hbelow]%andb_prop. by apply IH.
Qed.

Lemma blocks_along_children (editor : Editor) (path : Path) (r : NodeRef)
    (cs : list Node) :
  blocks_along editor path = true →
  Editor_node editor path = Ok r →
  ref_children editor r = Some cs →
  forallb is_element cs = true.
Proof.
  intros Hblocks Hr Hcs.
  destruct (ref_children_root_of _ _ _ _ Hr Hcs) as (o & t & a & Hget & _).
  by apply (blocks_below_children path (root_of editor) o t a).
Qed.

Lemma insertNode_blocks (editorState editorState' : Editor) (n : Node)
    (path : Path) (i : Z) :
  is_element n = true →
  insertNode editorState n (path ++ [i]) = Ok editorState' →
  blocks_along editorState path = true →
  blocks_along editorState' path = true.
Proof.
  intros Hn. unfold insertNode. destruct (decide (i < 0)) as [Hi|Hi].
  - unfold insertNodes. rewrite Path_parent_snoc.
    change (Ok ?x ≫= ?f) with (f x). cbv beta iota.
    destruct (modifyChildren editorState path _); [|done].
    change (Ok ?x ≫= ?f) with (f x). cbv beta. by rewrite decide_True.
  - rewrite insertNodes_snoc by lia. apply modifyChildren_blocks.
    intros cs cs'. destruct (decide (Z.of_nat (length cs) < i)); [done|].
    intros [= <-] Hcs. by apply forallb_spliced.
Qed.

Lemma deleteNode_blocks (editorState editorState' : Editor) (path : Path)
    (i : Z) :
  deleteNode editorState (path ++ [i]) = Ok editorState' →
  blocks_along editorState path = true →
  blocks_along editorState' path = true.
Proof.
  unfold deleteNode, removeNodes. rewrite Path_parent_snoc.
  change (Ok ?x ≫= ?f) with (f x). cbv beta iota.
  apply modifyChildren_blocks.
  intros cs cs'. destruct (child_at cs i); [|done].
  intros [= <-]. apply forallb_deleted.
Qed.

(** What every turn of a loop keeps, the loop keeps. *)
Lemma forEach_invariant {S A : Type} (P : S -> Prop)
    (f : S -> A -> Result S) (xs : list A) :
  ∀ s s' : S,
    (∀ (s1 s2 : S) (x : A), x ∈ xs → P s1 → f s1 x = Ok s2 → P s2) →
    P s → forEach f xs s = Ok s' → P s'.
Proof.
  induction xs as [|x xs IH]; intros s s' Hstep Hs.
  - rewrite forEach_nil. by intros [= <-].
  - rewrite forEach_cons. destruct (f s x) as [s1|] eqn:Hx; [|done].
    change (Ok ?x ≫= ?f) with (f x). cbv beta. apply IH.
    + intros s2 s3 y Hy. apply Hstep. by right.
    + apply (Hstep s s1 x); [by left | done | done].
Qed.

Lemma filter_all_ideas (ideas : list Node) :
  Forall (fun idea => isIdeaElement idea = true) ideas →
  List.filter isIdeaElement ideas = ideas.
Proof.
  induction 1 as [|idea ideas Hidea _ IH]; [done|].
  change (List.filter isIdeaElement (idea :: ideas))
    with (if isIdeaElement idea
          then idea :: List.filter isIdeaElement ideas
          else List.filter isIdeaElement ideas).
  by rewrite Hidea, IH.
Qed.

Lemma isIdeaElement_is_element (n : Node) :
  isIdeaElement n = true → is_element n = true.
Proof. by destruct n. Qed.

(** C1, what the code does.  The node lies below the root, is neither an
    image nor a list item, and holds elements, as do the nodes above it; the
    ideas are idea elements on which the normalisation pass finds nothing to
    do: then every insertion stands as it is made.  [addIdeasToNode] leaves
    the children followed by the ideas in reverse order, and [getIdeas] lists
    them so: with children [[C1; C2]] and ideas [[I1; I2]] the node ends with
    [[C1; C2; I2; I1]] and [getIdeas] returns [[I2; I1]], not
    [[C1; C2; I1; I2]] and [[I1; I2]]. *)
Theorem addIdeasToNode_below_root (editorState : Editor) (path : Path)
    (o : nat) (t : ElementType) (a : ElementProps) (cs ideas : list Node) :
  getNode editorState path = Ok (ANode (Element o t a cs)) →
  t ≠ Image → t ≠ ListOrderedItem → t ≠ ListUnorderedItem →
  blocks_along editorState path = true →
  Forall (fun idea => isIdeaElement idea = true ∧ settled idea = true)
    ideas →
  ∃ editorState',
    addIdeasToNode editorState path ideas = Ok editorState'
    ∧ getNode editorState' path
      = Ok (ANode (Element o t a (cs ++ reverse ideas)))
    ∧ getIdeas editorState' path
      = Ok (List.filter isIdeaElement cs ++ reverse ideas)
    ∧ blocks_along editorState' path = true.
Proof.
  intros Hget Himg Hoi Hui Hblocks Hideas. unfold addIdeasToNode.
  rewrite Hget.
  change (Ok ?x ≫= ?f) with (f x). cbv beta. cbn [ref_type].
  rewrite decide_False by (intros [|[|]]; congruence).
  destruct (addIdeasToNode_loop_below ideas editorState path o t a cs [])
    as (editorState' & Hloop & Hget').
  { by rewrite app_nil_r. }
  rewrite app_nil_r in Hget'. exists editorState'.
  split; [exact Hloop|]. split; [exact Hget'|]. split.
  - unfold getIdeas. rewrite Hget'. cbn. rewrite decide_False by congruence.
    rewrite List.filter_app. do 2 f_equal. apply filter_all_ideas.
    apply Forall_reverse. eapply Forall_impl; [exact Hideas|].
    by intros ? [? _].
  - revert Hloop.
    apply (forEach_invariant (fun e => blocks_along e path = true));
      [|exact Hblocks].
    intros s1 s2 idea Hin Hs1. cbn [children_length ref_children].
    change (Ok ?x ≫= ?f) with (f x). cbv beta.
    intros Hins. apply (insertNode_blocks _ _ idea _ _) in Hins; [done| |done].
    apply isIdeaElement_is_element.
    by apply (proj1 (Forall_forall _ _) Hideas idea Hin).
Qed.

Lemma addIdeasToNode_below_root_witness :
  let C1 := Element 1 ListUnorderedItem no_props [Text 2 (plain "C1")] in
  let C2 := Element 3 ListUnorderedItem no_props [Text 4 (plain "C2")] in
  let I1 := Element 5 Idea no_props [Text 6 (plain "first idea")] in
  let I2 := Element 7 Idea no_props [Text 8 (plain "second idea")] in
  let editorState :=
    mkEditor [Element 0 ListUnordered no_props [C1; C2]] None in
  ∃ editorState',
    addIdeasToNode editorState [0] [I1; I2] = Ok editorState'
    ∧ getNode editorState' [0]
      = Ok (ANode (Element 0 ListUnordered no_props [C1; C2; I2; I1]))
    ∧ getIdeas editorState' [0] = Ok [I2; I1].
Proof.
  intros C1 C2 I1 I2 editorState.
  destruct (addIdeasToNode_below_root editorState [0] 0 ListUnordered
              no_props [C1; C2] [I1; I2])
    as (editorState' & Hadd & Hget & Hideas & _).
  - reflexivity.
  - discriminate.
  - discriminate.
  - discriminate.
  - reflexivity.
  - repeat constructor.
  - exists editorState'. split; [exact Hadd|]. split; [exact Hget|].
    exact Hideas.
Defined.

(** The same input, evaluated. *)
Example addIdeasToNode_scenario :
  let C1 := Element 1 ListUnorderedItem no_props [Text 2 (plain "C1")] in
  let C2 := Element 3 ListUnorderedItem no_props [Text 4 (plain "C2")] in
  let I1 := Element 5 Idea no_props [Text 6 (plain "first idea")] in
  let I2 := Element 7 Idea no_props [Text 8 (plain "second idea")] in
  addIdeasToNode (mkEditor [Element 0 ListUnordered no_props [C1; C2]] None)
    [0] [I1; I2]
  = Ok (mkEditor [Element 0 ListUnordered no_props [C1; C2; I2; I1]] None).
Proof. reflexivity. Qed.

(** ** Clearing ideas *)

Lemma with_children_twice (r : NodeRef) (cs1 cs2 : list Node) :
  with_children (with_children r cs1) cs2 = with_children r cs2.
Proof. by destruct r as [|[]]. Qed.

Lemma filter_no_ideas (cs : list Node) :
  Forall (fun c => isIdeaElement c = false) cs →
  List.filter isIdeaElement cs = [].
Proof.
  induction 1 as [|c cs Hc _ IH]; [done|].
  change (List.filter isIdeaElement (c :: cs))
    with (if isIdeaElement c then c :: List.filter isIdeaElement cs
          else List.filter isIdeaElement cs).
  by rewrite Hc.
Qed.

(** The positions of the children that satisfy a test. *)
Lemma indices_from_app (f : Node -> bool) (i : nat) (cs1 cs2 : list Node) :
  indices_from f i (cs1 ++ cs2)
  = indices_from f i cs1 ++ indices_from f (i + length cs1) cs2.
Proof.
  revert i. induction cs1 as [|c cs1 IH]; intros i; cbn.
  - by rewrite Nat.add_0_r.
  - rewrite IH. replace (S i + length cs1)%nat with (i + S (length cs1))%nat
      by lia.
    by destruct (f c).
Qed.

Lemma indices_from_none (f : Node -> bool) (i : nat) (cs : list Node) :
  Forall (fun c => f c = false) cs → indices_from f i cs = [].
Proof.
  intros H. revert i. induction H as [|c cs Hc _ IH]; intros i; cbn; [done|].
  by rewrite Hc.
Qed.

(** The loop of [clearIdeas].  Every idea is looked up in the tables of the
    renderer, which no turn of the loop changes: where the tables show the
    children at the positions they have when the loop starts, the loop
    removes, one after the other, whatever stands at the position an idea
    had at the start. *)
Lemma clearIdeas_loop_positions (recorded : Rendered) (path : Path)
    (cs : list Node) :
  ∀ (i : nat) (editorState : Editor),
    (∀ (k : nat) (c : Node),
       cs !! k = Some c →
       recorded (node_oid c) = Some (path ++ [Z.of_nat (i + k)])) →
    forEach (fun editorState idea =>
               p ← findPath recorded editorState (ANode idea);
               deleteNode editorState p)
            (List.filter isIdeaElement cs) editorState
    = forEach (fun editorState k =>
                 deleteNode editorState (path ++ [Z.of_nat k]))
              (indices_from isIdeaElement i cs) editorState.
Proof.
  induction cs as [|c cs IH]; intros i editorState Hrec; [reflexivity|].
  assert (Hrest : ∀ (k : nat) (c' : Node),
             cs !! k = Some c' →
             recorded (node_oid c') = Some (path ++ [Z.of_nat (S i + k)])).
  { intros k c' Hk. rewrite (Hrec (S k) c' Hk). do 3 f_equal. lia. }
  change (List.filter isIdeaElement (c :: cs))
    with (if isIdeaElement c then c :: List.filter isIdeaElement cs
          else List.filter isIdeaElement cs).
  cbn [indices_from]. destruct (isIdeaElement c).
  - rewrite !forEach_cons. cbv beta.
    replace (findPath recorded editorState (ANode c))
      with (@Ok Path (path ++ [Z.of_nat i])).
    2: { unfold findPath. cbn [node_oid].
         by rewrite (Hrec 0%nat c eq_refl), Nat.add_0_r. }
    change (Ok ?x ≫= ?f) with (f x). cbv beta.
    destruct (deleteNode editorState (path ++ [Z.of_nat i])) as [next|x];
      [|done].
    change (Ok ?x ≫= ?f) with (f x). cbv beta. by apply IH.
  - by apply IH.
Qed.

Lemma clearIdeas_by_position (recorded : Rendered) (editorState : Editor)
    (path : Path) (r : NodeRef) (cs : list Node) :
  up_to_date recorded editorState →
  getNode editorState path = Ok r →
  ref_type r ≠ Some Image →
  ref_children editorState r = Some cs →
  clearIdeas recorded editorState path
  = forEach (fun editorState k =>
               deleteNode editorState (path ++ [Z.of_nat k]))
            (indices_from isIdeaElement 0 cs) editorState.
Proof.
  intros Hrec Hr Himg Hcs. unfold clearIdeas, getIdeas. rewrite Hr.
  change (Ok ?x ≫= ?f) with (f x). cbv beta.
  rewrite decide_False by done. rewrite Hcs.
  change (Ok ?x ≫= ?f) with (f x). cbv beta.
  apply clearIdeas_loop_positions. intros k c Hk. apply Hrec.
  unfold getNode in Hr. change (0 + k)%nat with k.
  by rewrite (Editor_node_snoc _ _ _ _ _ Hr Hcs), child_at_of_nat, Hk.
Qed.

(** With no idea to clear nothing is looked up and nothing removed. *)
Lemma clearIdeas_no_ideas (recorded : Rendered) (editorState : Editor)
    (path : Path) :
  getIdeas editorState path = Ok [] →
  clearIdeas recorded editorState path = Ok editorState.
Proof. intros Hnone. unfold clearIdeas. by rewrite Hnone. Qed.

Lemma getNodeChildren_element (editorState : Editor) (path : Path)
    (r : NodeRef) (cs : list Node) :
  getNode editorState path = Ok r →
  ref_type r ≠ Some Image →
  ref_children editorState r = Some cs →
  getNodeChildren editorState path = Ok (Some cs).
Proof.
  intros Hr Himg Hcs. unfold getNodeChildren. rewrite Hr.
  change (Ok ?x ≫= ?f) with (f x). cbv beta.
  by rewrite decide_True, Hcs.
Qed.

Lemma getIdeas_element (editorState : Editor) (path : Path)
    (r : NodeRef) (cs : list Node) :
  getNode editorState path = Ok r →
  ref_type r ≠ Some Image →
  ref_children editorState r = Some cs →
  getIdeas editorState path = Ok (List.filter isIdeaElement cs).
Proof.
  intros Hr Himg Hcs. unfold getIdeas. rewrite Hr.
  change (Ok ?x ≫= ?f) with (f x). cbv beta.
  by rewrite decide_False, Hcs.
Qed.

Lemma oids_nonempty (n : Node) : (0 < length (oids n))%nat.
Proof. destruct n; cbn; lia. Qed.

(** A removal that returns leaves another document. *)
Lemma removeNodes_changes (editor editor' : Editor) (at_ : Path) :
  removeNodes editor at_ = Ok editor' → editor' ≠ editor.
Proof.
  unfold removeNodes. destruct at_ as [|i q _] using rev_ind; [done|].
  rewrite Path_parent_snoc.
  change (Ok ?x ≫= ?f) with (f x). cbv beta iota.
  intros Hmod ->.
  destruct (Editor_node editor q) as [r|] eqn:Hr.
  2: { rewrite modifyChildren_invalid in Hmod; [done|]. congruence. }
  destruct (ref_children editor r) as [cs|] eqn:Hcs.
  2: { rewrite modifyChildren_invalid in Hmod; [done|]. congruence. }
  destruct (child_at cs i) as [c|] eqn:Hc.
  2: { rewrite (modifyChildren_throws _ _ _ r cs OutOfBounds Hr Hcs) in Hmod;
         [done|]. cbv beta. by rewrite Hc. }
  assert (Hf : (fun cs0 : list Node =>
                  match child_at cs0 i with
                  | Some _ => Ok (delete (Z.to_nat i) cs0)
                  | None => Throw OutOfBounds
                  end) cs = Ok (delete (Z.to_nat i) cs))
    by (cbv beta; by rewrite Hc).
  destruct (modifyChildren_oids_split _ _ _ _ _ _ _ Hr Hcs Hf Hmod)
    as (before & after & Hb & Ha).
  rewrite Hb in Ha. apply app_inv_head, app_inv_tail in Ha.
  apply child_at_Some in Hc as [_ Hc].
  apply (f_equal length) in Ha.
  rewrite <- (take_drop_middle cs _ c Hc) in Ha at 1.
  rewrite delete_take_drop, !oids_of_app in Ha.
  change (oids_of (c :: ?l)) with (oids c ++ oids_of l) in Ha.
  rewrite !length_app in Ha. pose proof (oids_nonempty c). lia.
Qed.

(** Where one idea is left, a further [clearIdeas] does not leave the
    document as it is, whatever the renderer has on record. *)
Lemma clearIdeas_changes (recorded : Rendered) (editorState : Editor)
    (path : Path) (idea : Node) :
  getIdeas editorState path = Ok [idea] →
  clearIdeas recorded editorState path ≠ Ok editorState.
Proof.
  intros Hideas. unfold clearIdeas. rewrite Hideas.
  change (Ok ?x ≫= ?f) with (f x). cbv beta.
  rewrite forEach_cons.
  destruct (findPath recorded editorState (ANode idea)) as [p|]; [|done].
  change (Ok ?x ≫= ?f) with (f x). cbv beta.
  destruct (deleteNode editorState p) as [next|] eqn:Hdel; [|done].
  change (Ok ?x ≫= ?f) with (f x). cbv beta. rewrite forEach_nil.
  intros [= ->]. by apply removeNodes_changes in Hdel.
Qed.

(** C4, what the code does.  The document was rendered as it stands and
    each of its objects stands in it once; the path leads to the root or to
    an element that is not an image, which holds elements only, as do the
    nodes above it, so that the normalisation pass is idle; among its
    children are two ideas, [i1] before [i2], and right after [i2] a child
    [c] that is no idea.  [clearIdeas] removes [i1], then looks [i2] up and
    is given the position [i2] had before [i1] was removed, where [c] now
    stands: it removes [c].  Afterwards [i2] is still a child, [c] is gone,
    [getIdeas] returns [[i2]], and a second [clearIdeas] does not leave the
    document as it is, be the document rendered in between or not. *)
Theorem clearIdeas_two_ideas (recorded : Rendered) (editorState : Editor)
    (path : Path) (r : NodeRef) (pre mid post : list Node) (i1 i2 c : Node) :
  NoDup (oids_of (children editorState)) →
  up_to_date recorded editorState →
  getNode editorState path = Ok r →
  ref_type r ≠ Some Image →
  ref_children editorState r = Some (pre ++ i1 :: mid ++ i2 :: c :: post) →
  blocks_along editorState path = true →
  isIdeaElement i1 = true → isIdeaElement i2 = true →
  Forall (fun child => isIdeaElement child = false)
    (pre ++ mid ++ c :: post) →
  ∃ editorState',
    clearIdeas recorded editorState path = Ok editorState'
    ∧ getNodeChildren editorState' path = Ok (Some (pre ++ mid ++ i2 :: post))
    ∧ getIdeas editorState' path = Ok [i2]
    ∧ blocks_along editorState' path = true
    ∧ clearIdeas recorded editorState' path ≠ Ok editorState'
    ∧ clearIdeas (rendered (children editorState')) editorState' path
      ≠ Ok editorState'.
Proof.
  intros HND Hrec Hr Himg Hcs Hblocks Hi1 Hi2 Hrest.
  apply Forall_app in Hrest as [Hpre Hrest].
  apply Forall_app in Hrest as [Hmid Hrest].
  apply Forall_cons in Hrest as [Hc Hpost].
  rewrite (clearIdeas_by_position _ _ _ _ _ Hrec Hr Himg Hcs).
  assert (Hidx : indices_from isIdeaElement 0
                   (pre ++ i1 :: mid ++ i2 :: c :: post)
                 = [length pre; length (pre ++ mid ++ [i2])]).
  { rewrite indices_from_app, (indices_from_none _ _ pre Hpre).
    cbn [indices_from app]. rewrite Hi1.
    rewrite indices_from_app, (indices_from_none _ _ mid Hmid).
    cbn [indices_from app]. rewrite Hi2, Hc.
    rewrite (indices_from_none _ _ post Hpost).
    do 2 f_equal. rewrite !length_app. cbn. lia. }
  rewrite Hidx. clear Hidx. unfold getNode in Hr.
  destruct (removeNodes_child editorState path r pre (mid ++ i2 :: c :: post)
              i1 Hr Hcs HND)
    as (editorState1 & Hdel1 & Hr1 & Hcs1 & HND1).
  assert (Hshape : pre ++ mid ++ i2 :: c :: post
                   = (pre ++ mid ++ [i2]) ++ c :: post)
    by (by rewrite <- !app_assoc).
  rewrite Hshape in Hr1, Hcs1.
  destruct (removeNodes_child editorState1 path _ (pre ++ mid ++ [i2]) post
              c Hr1 Hcs1 HND1)
    as (editorState2 & Hdel2 & Hr2 & Hcs2 & HND2).
  rewrite with_children_twice in Hr2, Hcs2.
  assert (Hleft : (pre ++ mid ++ [i2]) ++ post = pre ++ mid ++ i2 :: post)
    by (by rewrite <- !app_assoc).
  rewrite Hleft in Hr2, Hcs2.
  assert (Himg2 : ref_type (with_children r (pre ++ mid ++ i2 :: post))
                  ≠ Some Image) by (by rewrite ref_type_with_children).
  assert (Hideas : getIdeas editorState2 path = Ok [i2]).
  { rewrite (getIdeas_element _ _ _ _ Hr2 Himg2 Hcs2).
    rewrite !List.filter_app.
    change (List.filter isIdeaElement (i2 :: post))
      with (if isIdeaElement i2 then i2 :: List.filter isIdeaElement post
            else List.filter isIdeaElement post).
    by rewrite Hi2, !filter_no_ideas. }
  exists editorState2. split; [|split; [|split; [|split; [|split]]]].
  - change (removeNodes ?e ?p) with (deleteNode e p) in Hdel1, Hdel2.
    rewrite forEach_cons. cbv beta. rewrite Hdel1.
    change (Ok ?x ≫= ?f) with (f x). cbv beta.
    rewrite forEach_cons. cbv beta. rewrite Hdel2.
    change (Ok ?x ≫= ?f) with (f x). cbv beta. by rewrite forEach_nil.
  - by apply (getNodeChildren_element _ _ _ _ Hr2 Himg2 Hcs2).
  - exact Hideas.
  - apply (deleteNode_blocks _ _ _ _ Hdel2).
    by apply (deleteNode_blocks _ _ _ _ Hdel1).
  - by apply (clearIdeas_changes _ _ _ i2).
  - by apply (clearIdeas_changes _ _ _ i2).
Qed.

Lemma clearIdeas_two_ideas_witness :
  let i1 := Element 1 Idea no_props [Text 2 (plain "first idea")] in
  let i2 := Element 3 Idea no_props [Text 4 (plain "second idea")] in
  let c := Element 5 Paragraph no_props [Text 6 (plain "written")] in
  let editorState := mkEditor [i1; i2; c] None in
  ∃ editorState',
    clearIdeas (rendered [i1; i2; c]) editorState [] = Ok editorState'
    ∧ getNodeChildren editorState' [] = Ok (Some [i2])
    ∧ getIdeas editorState' [] = Ok [i2].
Proof.
  intros i1 i2 c editorState.
  destruct (clearIdeas_two_ideas (rendered [i1; i2; c]) editorState []
              TheEditor [] [] [] i1 i2 c)
    as (editorState' & Hclear & Hleft & Hideas & _).
  - apply (bool_decide_unpack _). vm_compute. exact I.
  - apply (rendered_up_to_date editorState).
    apply (bool_decide_unpack _). vm_compute. exact I.
  - reflexivity.
  - discriminate.
  - reflexivity.
  - reflexivity.
  - reflexivity.
  - reflexivity.
  - repeat constructor.
  - exists editorState'. split; [exact Hclear|]. split; [exact Hleft|].
    exact Hideas.
Defined.

(** The same input, evaluated: the second idea is left, the paragraph is
    removed in its place. *)
Example clearIdeas_scenario :
  let i1 := Element 1 Idea no_props [Text 2 (plain "first idea")] in
  let i2 := Element 3 Idea no_props [Text 4 (plain "second idea")] in
  let c := Element 5 Paragraph no_props [Text 6 (plain "written")] in
  clearIdeas (rendered [i1; i2; c]) (mkEditor [i1; i2; c] None) []
  = Ok (mkEditor [i2] None).
Proof. reflexivity. Qed.

(** ** Wrapping a list item *)





(** The same input, evaluated. *)
Example insertListWrapper_scenario :
  let item := Element 3 ListOrderedItem no_props [Text 4 (plain "milk")] in
  let paragraph := Element 0 Paragraph no_props [Text 1 (plain "intro")] in
  insertListWrapper
    (mkEditor [paragraph; Element 2 ListOrdered no_props [item]] None)
    [1; 0] ListUnordered
  = Ok (mkEditor
          [paragraph;
           Element 2 ListOrdered no_props
             [Element 5 ListUnordered no_props [item]]] None).
Proof. reflexivity. Qed.

(** ** Text content *)

Lemma append_assoc (s1 s2 s3 : string) :
  (s1 +:+ s2) +:+ s3 = s1 +:+ (s2 +:+ s3).
Proof.
  induction s1 as [|ch s1 IH]; [reflexivity|].
  change (String ch ((s1 +:+ s2) +:+ s3) = String ch (s1 +:+ (s2 +:+ s3))).
  by rewrite IH.
Qed.

Lemma append_empty_r (s : string) : s +:+ "" = s.
Proof.
  induction s as [|ch s IH]; [reflexivity|].
  change (String ch (s +:+ "") = String ch s). by rewrite IH.
Qed.

(** The equation of the source: the children of the node at [path] are run
    through, a text leaf gives its text, and any other child gives the
    content found at [path.concat(0)]. *)
Lemma getNodeContent_eq (editorState : Editor) (path : Path) :
  getNodeContent editorState path =
    (children ← getNodeChildren editorState path;
     match children with
     | Some cs => content_loop (getNodeContent editorState (path ++ [0])) cs
     | None => Throw TypeError
     end).
Proof.
  unfold getNodeContent at 1. unfold getNodeChildren.
  destruct (getNode editorState path) as [r|] eqn:Hr; [|done].
  change (Ok ?x ≫= ?f) with (f x). cbv beta.
  assert (Hfirst : ∀ cs, ref_children editorState r = Some cs →
            getNodeContent editorState (path ++ [0]) =
              match cs with
              | c0 :: _ => content_below c0
              | [] => Throw OutOfBounds
              end).
  { intros cs Hcs. unfold getNodeContent, getNode.
    rewrite (Editor_node_snoc _ _ _ _ _ Hr Hcs). by destruct cs. }
  destruct r as [|[o lf|o t a cs]].
  - by rewrite (Hfirst _ eq_refl).
  - done.
  - cbn [ref_type content_below]. destruct (decide (t ≠ Image)).
    + rewrite decide_True by congruence. cbn [ref_children].
      change (Ok ?x ≫= ?f) with (f x). cbv beta. by rewrite (Hfirst _ eq_refl).
    + rewrite decide_False; [done|]. intros H. apply H. f_equal.
      by destruct (decide (t = Image)).
Qed.

(** The loop over text leaves appends their texts. *)
Lemma content_loop_leaves (recursive_call : Result string) (acc : string)
    (leaves : list Node) :
  Forall (fun c => isTextLeaf c = true) leaves →
  foldl (fun acc child =>
           content ← acc;
           match child with
           | Text _ lf => Ok (content +:+ text lf)
           | Element _ _ _ _ => s ← recursive_call; Ok (content +:+ s)
           end)
        (Ok acc) leaves
  = Ok (acc +:+ leaf_texts leaves).
Proof.
  intros Hleaves. revert acc.
  induction Hleaves as [|c leaves Hc _ IH]; intros acc.
  - cbn. by rewrite append_empty_r.
  - destruct c as [o lf|]; [|done]. cbn [foldl leaf_texts foldr].
    change (Ok acc ≫= ?f) with (f acc). cbv beta.
    rewrite IH, append_assoc. reflexivity.
Qed.

(** C2, as stated, fails: an idea child is not skipped.  Its text is part
    of the result. *)
Lemma getNodeContent_includes_idea_text :
  ¬ (∀ (editorState : Editor) (path : Path) (r : NodeRef) (cs : list Node),
       getNode editorState path = Ok r →
       ref_children editorState r = Some cs →
       Exists (fun c => isIdeaElement c = true) cs →
       Exists (fun c => isIdeaElement c = false) cs →
       getNodeContent editorState path
       = Ok (String.concat "" (map text_outside_ideas cs))).
Proof.
  intros H.
  pose (idea := Element 1 Idea no_props [Text 2 (plain "generated")]).
  pose (cs := [idea; Text 3 (plain "written")]).
  specialize (H (mkEditor [Element 0 Paragraph no_props cs] None) [0]
                (ANode (Element 0 Paragraph no_props cs)) cs eq_refl eq_refl).
  assert (Hwrong : Ok "generatedwritten" = Ok "written").
  { apply H.
    - by apply Exists_cons_hd.
    - by apply Exists_cons_tl, Exists_cons_hd. }
  discriminate Hwrong.
Qed.

(** C2, amended.  On a node that is not an image and whose children after
    the first are text leaves, [getNodeContent] returns, with no separator,
    the content of the first child followed by the texts of the other
    children in order; the content of the first child is its text when it is
    a leaf and what [getNodeContent] returns on it when it is an element, an
    idea included. *)
Theorem getNodeContent_first_child (editorState : Editor) (path : Path)
    (r : NodeRef) (c0 : Node) (leaves : list Node) :
  getNode editorState path = Ok r →
  ref_type r ≠ Some Image →
  ref_children editorState r = Some (c0 :: leaves) →
  Forall (fun c => isTextLeaf c = true) leaves →
  getNodeContent editorState path =
    match c0 with
    | Text _ lf => Ok (text lf +:+ leaf_texts leaves)
    | Element _ _ _ _ =>
        s ← getNodeContent editorState (path ++ [0]);
        Ok (s +:+ leaf_texts leaves)
    end.
Proof.
  intros Hr Himg Hcs Hleaves. rewrite getNodeContent_eq.
  unfold getNodeChildren. rewrite Hr.
  change (Ok ?x ≫= ?f) with (f x). cbv beta.
  rewrite decide_True by done.
  change (Ok ?x ≫= ?f) with (f x). cbv beta. rewrite Hcs.
  unfold content_loop. cbn [foldl].
  destruct c0 as [o lf|o t a cs0].
  - exact (content_loop_leaves _ (text lf) leaves Hleaves).
  - destruct (getNodeContent editorState (path ++ [0])) as [s|e].
    + exact (content_loop_leaves _ s leaves Hleaves).
    + apply forEach_throw.
Qed.

Lemma getNodeContent_first_child_witness :
  let idea := Element 1 Idea no_props [Text 2 (plain "generated")] in
  let written := Text 3 (plain "written") in
  let editorState :=
    mkEditor [Element 0 Paragraph no_props [idea; written]] None in
  getNodeContent editorState [0] = Ok "generatedwritten".
Proof.
  intros idea written editorState.
  apply (getNodeContent_first_child editorState [0]
           (ANode (Element 0 Paragraph no_props [idea; written]))
           idea [written]).
  - reflexivity.
  - discriminate.
  - reflexivity.
  - repeat constructor.
Defined.

(** An element child that is not the first is looked for at
    [path.concat(0)] all the same: with a text leaf in the first place the
    call goes to that leaf and throws. *)
Example getNodeContent_second_child :
  let idea := Element 1 Idea no_props [Text 2 (plain "generated")] in
  let written := Text 3 (plain "written") in
  getNodeContent
    (mkEditor [Element 0 Paragraph no_props [written; idea]] None) [0]
  = Throw TypeError.
Proof. reflexivity. Qed.

(** * Further properties of the source *)

(** ** Induction on nodes *)

Lemma Node_induction (P : Node → Prop) :
  (∀ o lf, P (Text o lf)) →
  (∀ o t a cs, Forall P cs → P (Element o t a cs)) →
  ∀ n, P n.
Proof.
  intros Hleaf Helement. fix IH 1. intros [o lf|o t a cs].
  - apply Hleaf.
  - apply Helement. induction cs as [|c cs IHcs]; constructor.
    + apply IH.
    + exact IHcs.
Qed.

(** ** Paths and identities *)

(** X1.  Where each object stands once in the document and the document
    was rendered as it stands, looking a node up by path and then asking for
    the path of the node found gives the path back; the root path gives the
    editor, whose path is the root path.  Before anything was rendered the
    second lookup throws for every node. *)
Theorem getNode_then_path (editorState : Editor) (q : Path) (r : NodeRef) :
  NoDup (oids_of (children editorState)) →
  getNode editorState q = Ok r →
  getNode_path (rendered (children editorState)) editorState r = Ok q
  ∧ (q ≠ [] → getNode_path never_rendered editorState r = Throw NodeNotFound).
Proof.
  intros HND Hr. destruct r as [|n].
  - assert (q = []) as -> by (by apply (getNode_nil_iff _ _ _ Hr)).
    by split.
  - split; [|done].
    apply (findPath_up_to_date _ editorState); [|exact Hr].
    by apply rendered_up_to_date.
Qed.

Lemma getNode_then_path_witness :
  let leaf := Text 3 (plain "b") in
  let editorState :=
    mkEditor [Element 0 Paragraph no_props [Text 1 (plain "a")];
              Element 2 Paragraph no_props [leaf]] None in
  getNode_path (rendered (children editorState)) editorState (ANode leaf)
  = Ok [1; 0].
Proof.
  intros leaf editorState.
  apply (getNode_then_path editorState [1; 0] (ANode leaf)).
  - apply (bool_decide_unpack _). vm_compute. exact I.
  - reflexivity.
Defined.

(** X3.  Valid paths are closed under taking a prefix: where the lookup
    of a path returns, so does the lookup of every path it extends, and the
    lookup of the parent path in [getNodeParent]. *)
Theorem getNode_prefix (editorState : Editor) (p q : Path) (r : NodeRef) :
  getNode editorState (p ++ q) = Ok r →
  (∃ r', getNode editorState p = Ok r')
  ∧ ∃ parent, getNodeParent editorState (p ++ q)
              = Ok (parent, removelast (p ++ q)).
Proof.
  intros Hr.
  assert (Hprefix : ∀ p' q', getNode editorState (p' ++ q') = Ok r →
                             ∃ r', getNode editorState p' = Ok r').
  { intros p' q'. unfold getNode. rewrite !Editor_node_root_of.
    destruct p' as [|z p']; [by eexists|]. cbn [app].
    rewrite (Node_get_app (z :: p') q').
    destruct (Node_get (z :: p') (root_of editorState)); [by eexists|done]. }
  split; [by apply (Hprefix p q)|].
  unfold getNodeParent.
  destruct (p ++ q) as [|z l] eqn:Hpq using rev_ind.
  - by eexists.
  - rewrite removelast_last. destruct (Hprefix _ _ Hr) as [r' ->].
    by eexists.
Qed.

Lemma getNode_prefix_witness :
  let editorState :=
    mkEditor [Element 0 Paragraph no_props [Text 1 (plain "a")]] None in
  ∃ r', getNode editorState [0] = Ok r'.
Proof.
  intros editorState.
  apply (getNode_prefix editorState [0] [0] (ANode (Text 1 (plain "a")))).
  reflexivity.
Defined.



(** ** Inserting and deleting nodes *)

Lemma lookup_inserted {A : Type} (l : list A) (i j : nat) (x : A) :
  (i ≤ length l)%nat →
  (take i l ++ x :: drop i l) !! (if decide (j < i)%nat then j else S j)
  = l !! j.
Proof.
  intros Hi. destruct (decide (j < i)%nat) as [Hlt|Hge].
  - rewrite lookup_app_l by (rewrite length_take; lia).
    by rewrite lookup_take_lt.
  - rewrite lookup_app_r by (rewrite length_take; lia).
    rewrite length_take, Nat.min_l by lia.
    replace (S j - i)%nat with (S (j - i)) by lia.
    change ((x :: drop i l) !! S (j - i)%nat) with (drop i l !! (j - i)%nat).
    rewrite lookup_drop. f_equal. lia.
Qed.

(** X5.  The parent holds elements only, as do the nodes above it, and
    the node to insert is an element on which the normalisation pass finds
    nothing to do.  Inserting it at index [i] of a parent with at least [i]
    children succeeds; afterwards the node is found at that index, every
    former child at an index below [i] and everything under it is found
    where it was, every former child from index [i] on is found one index
    further, positions neither above nor below the parent hold what they
    held, and the parent and the nodes above it still hold elements only. *)
Theorem insertNode_lookup (editorState : Editor) (path : Path) (r : NodeRef)
    (cs : list Node) (i : nat) (n : Node) :
  getNode editorState path = Ok r →
  ref_children editorState r = Some cs →
  (i ≤ length cs)%nat →
  blocks_along editorState path = true →
  is_element n = true → settled n = true →
  ∃ editorState',
    insertNode editorState n (path ++ [Z.of_nat i]) = Ok editorState'
    ∧ getNode editorState' (path ++ [Z.of_nat i]) = Ok (ANode n)
    ∧ (∀ (j : nat) (q : Path),
         getNode editorState'
           (path ++ Z.of_nat (if decide (j < i)%nat then j else S j) :: q)
         = getNode editorState (path ++ Z.of_nat j :: q))
    ∧ (∀ q, ¬ (q `prefix_of` path) → ¬ (path `prefix_of` q) →
            getNode editorState' q = getNode editorState q)
    ∧ blocks_along editorState' path = true.
Proof.
  intros Hr Hcs Hi Hblocks Hn _. unfold getNode in *.
  assert (Hlen : length (take i cs) = i) by (rewrite length_take; lia).
  destruct (insertNodes_child editorState path r (take i cs) (drop i cs) n Hr)
    as (editorState' & Hins & Hr' & Hcs').
  { by rewrite take_drop. }
  rewrite Hlen in Hins. exists editorState'. unfold insertNode.
  split; [exact Hins|]. split; [|split; [|split]].
  - rewrite (Editor_node_snoc _ _ _ _ _ Hr' Hcs'), child_at_of_nat.
    rewrite <- Hlen at 1. by rewrite list_lookup_middle.
  - intros j q. rewrite !Editor_node_app, Hr, Hr'.
    change (Ok ?x ≫= ?f) with (f x). cbv beta. rewrite Hcs, Hcs'.
    by rewrite !child_at_of_nat, lookup_inserted.
  - intros q Hq1 Hq2. rewrite insertNodes_snoc in Hins by lia.
    by apply (modifyChildren_frame _ _ _ _ q Hins).
  - exact (insertNode_blocks editorState _ n _ (Z.of_nat i) Hn Hins Hblocks).
Qed.

Lemma insertNode_lookup_witness :
  let item o s := Element o ListOrderedItem no_props [Text (S o) (plain s)] in
  let a := item 1%nat "a" in
  let b := item 3%nat "b" in
  let x := item 5%nat "x" in
  let editorState := mkEditor [Element 0 ListOrdered no_props [a; b]] None in
  ∃ editorState',
    insertNode editorState x [0; 1] = Ok editorState'
    ∧ getNode editorState' [0; 1] = Ok (ANode x)
    ∧ getNode editorState' [0; 0] = Ok (ANode a)
    ∧ getNode editorState' [0; 2] = Ok (ANode b).
Proof.
  intros item a b x editorState.
  destruct (insertNode_lookup editorState [0]
              (ANode (Element 0 ListOrdered no_props [a; b])) [a; b] 1 x)
    as (editorState' & Hins & Hat & Hshift & _).
  - reflexivity.
  - reflexivity.
  - cbn. lia.
  - reflexivity.
  - reflexivity.
  - reflexivity.
  - exists editorState'. split; [exact Hins|]. split; [exact Hat|].
    split; [exact (Hshift 0%nat []) | exact (Hshift 1%nat [])].
Defined.

(** X6.  Under the same conditions, and where the parent had a child
    before: deleting the node just inserted, at the path it was inserted at,
    gives back the editor as it was before the insertion. *)
Theorem insertNode_deleteNode (editorState editorState' : Editor)
    (path : Path) (r : NodeRef) (cs : list Node) (i : nat) (n : Node) :
  getNode editorState path = Ok r →
  ref_children editorState r = Some cs →
  blocks_along editorState path = true →
  is_element n = true → settled n = true →
  cs ≠ [] →
  insertNode editorState n (path ++ [Z.of_nat i]) = Ok editorState' →
  blocks_along editorState' path = true
  ∧ deleteNode editorState' (path ++ [Z.of_nat i]) = Ok editorState.
Proof.
  intros Hr Hcs Hblocks Hn _ _ Hins.
  split;
    [exact (insertNode_blocks editorState _ n _ (Z.of_nat i) Hn Hins Hblocks)|].
  unfold getNode, insertNode, deleteNode in *.
  rewrite insertNodes_snoc in Hins by lia.
  unfold removeNodes. rewrite Path_parent_snoc.
  change (Ok ?x ≫= ?f) with (f x). cbv beta iota.
  destruct (decide (Z.of_nat (length cs) < Z.of_nat i)) as [Hpast|Hi].
  { rewrite (modifyChildren_throws _ _ _ r cs PastTheEnd Hr Hcs) in Hins;
      [done|]. by rewrite decide_True. }
  assert (Hlen : length (take i cs) = i) by (rewrite length_take; lia).
  assert (Hsplice : splice_in cs (Z.of_nat i) n = take i cs ++ n :: drop i cs).
  { unfold splice_in. rewrite decide_False by lia. by rewrite Nat2Z.id. }
  rewrite (setChildren_of_modify _ _ _ r cs (take i cs ++ n :: drop i cs)
             Hr Hcs) in Hins.
  2: { by rewrite decide_False, Hsplice. }
  destruct (setChildren_get editorState path r cs
              (take i cs ++ n :: drop i cs) Hr Hcs)
    as (editorState1 & Hset & Hr1 & Hcs1).
  rewrite Hset in Hins. injection Hins as <-.
  rewrite (setChildren_of_modify _ _ _ _ _ cs Hr1 Hcs1).
  - rewrite (setChildren_twice _ _ _ _ _ Hset).
    by apply (setChildren_same _ _ r).
  - rewrite child_at_of_nat. rewrite <- Hlen at 1.
    rewrite list_lookup_middle by done. rewrite Nat2Z.id.
    rewrite <- Hlen at 1. by rewrite delete_middle, take_drop.
Qed.

Lemma insertNode_deleteNode_witness :
  let a := Element 0 Paragraph no_props [Text 1 (plain "a")] in
  let x := Element 2 Paragraph no_props [Text 3 (plain "x")] in
  let editorState := mkEditor [a] None in
  ∃ editorState',
    insertNode editorState x [0] = Ok editorState'
    ∧ deleteNode editorState' [0] = Ok editorState.
Proof.
  intros a x editorState. eexists. split; [reflexivity|].
  apply (insertNode_deleteNode editorState _ [] TheEditor [a] 0 x).
  - reflexivity.
  - reflexivity.
  - reflexivity.
  - reflexivity.
  - reflexivity.
  - discriminate.
  - reflexivity.
Defined.

(** X7.  [insertNode] throws on the root path, which has no parent to
    insert into; at an index beyond the number of children of the parent; at
    an index below zero; and below a path that leads to a text leaf or to no
    node. *)
Theorem insertNode_throws (editorState : Editor) (n : Node) (path : Path)
    (i : Z) :
  insertNode editorState n [] = Throw RootHasNoParent
  ∧ (∀ r cs, getNode editorState path = Ok r →
             ref_children editorState r = Some cs →
             Z.of_nat (length cs) < i →
             insertNode editorState n (path ++ [i]) = Throw PastTheEnd)
  ∧ (∀ r cs, getNode editorState path = Ok r →
             ref_children editorState r = Some cs →
             i < 0 →
             insertNode editorState n (path ++ [i]) = Throw NoPreviousPath)
  ∧ ((∀ r, getNode editorState path = Ok r →
           ref_children editorState r = None) →
     insertNode editorState n (path ++ [i]) = Throw OutOfBounds).
Proof.
  split; [reflexivity|]. unfold getNode, insertNode, insertNodes.
  rewrite Path_parent_snoc.
  change (Ok ?x ≫= ?f) with (f x). cbv beta iota. split; [|split].
  - intros r cs Hr Hcs Hi.
    rewrite (modifyChildren_throws _ _ _ r cs PastTheEnd); [done|done|done|].
    by rewrite decide_True.
  - intros r cs Hr Hcs Hi.
    destruct (modifyChildren_get editorState path
                (fun cs => if decide (Z.of_nat (length cs) < i)
                           then Throw PastTheEnd
                           else Ok (splice_in cs i n))
                r cs (splice_in cs i n) Hr Hcs)
      as (editorState' & -> & _).
    { cbv beta. by rewrite decide_False by lia. }
    change (Ok ?x ≫= ?f) with (f x). cbv beta. by rewrite decide_True.
  - intros Hnone. rewrite modifyChildren_invalid; [done|].
    intros r cs Hr Hcs. specialize (Hnone r Hr). congruence.
Qed.

Lemma insertNode_throws_witness :
  let editorState :=
    mkEditor [Element 0 Paragraph no_props [Text 1 (plain "a")]] None in
  insertNode editorState (Text 2 (plain "x")) [0; 5] = Throw PastTheEnd
  ∧ insertNode editorState (Text 2 (plain "x")) [0; -1] = Throw NoPreviousPath
  ∧ insertNode editorState (Text 2 (plain "x")) [0; 0; 0] = Throw OutOfBounds.
Proof.
  intros editorState. split; [|split].
  - apply (proj1 (proj2 (insertNode_throws editorState (Text 2 (plain "x"))
                           [0] 5))
             (ANode (Element 0 Paragraph no_props [Text 1 (plain "a")]))
             [Text 1 (plain "a")]).
    + reflexivity.
    + reflexivity.
    + cbn. lia.
  - apply (proj1 (proj2 (proj2 (insertNode_throws editorState
                                  (Text 2 (plain "x")) [0] (-1))))
             (ANode (Element 0 Paragraph no_props [Text 1 (plain "a")]))
             [Text 1 (plain "a")]).
    + reflexivity.
    + reflexivity.
    + lia.
  - apply (proj2 (proj2 (proj2 (insertNode_throws editorState
                                  (Text 2 (plain "x")) [0; 0] 0)))).
    intros r [= <-]. reflexivity.
Defined.

Lemma lookup_deleted {A : Type} (l : list A) (i j : nat) :
  delete i l !! j = l !! (if decide (j < i)%nat then j else S j).
Proof.
  destruct (decide (j < i)%nat).
  - by apply list_lookup_delete_lt.
  - apply list_lookup_delete_ge. lia.
Qed.

(** The removal of a child, as one edit of the children of its parent. *)
Lemma deleteNode_as_setChildren (editorState : Editor) (path : Path)
    (r : NodeRef) (pre post : list Node) (c : Node) :
  getNode editorState path = Ok r →
  ref_children editorState r = Some (pre ++ c :: post) →
  deleteNode editorState (path ++ [Z.of_nat (length pre)])
  = setChildren editorState path (pre ++ post).
Proof.
  intros Hr Hcs. unfold deleteNode, removeNodes. rewrite Path_parent_snoc.
  change (Ok ?x ≫= ?f) with (f x). cbv beta iota.
  apply (setChildren_of_modify _ _ _ r (pre ++ c :: post)); [done|done|].
  by rewrite child_at_middle, Nat2Z.id, delete_middle.
Qed.

(** X8.  Each object stands once in the document; the parent holds
    elements only, as do the nodes above it, and has a second child.  Deleting a child of the parent succeeds; afterwards the former
    siblings at lower indices are found where they were, those at higher
    indices one index lower, positions neither above nor below the parent
    hold what they held, each object still stands once, and the parent and
    the nodes above it still hold elements only. *)
Theorem deleteNode_lookup (editorState : Editor) (path : Path) (r : NodeRef)
    (cs : list Node) (i : nat) (c : Node) :
  NoDup (oids_of (children editorState)) →
  getNode editorState path = Ok r →
  ref_children editorState r = Some cs →
  cs !! i = Some c →
  blocks_along editorState path = true →
  (1 < length cs)%nat →
  ∃ editorState',
    deleteNode editorState (path ++ [Z.of_nat i]) = Ok editorState'
    ∧ (∀ (j : nat) (q : Path),
         getNode editorState' (path ++ Z.of_nat j :: q)
         = getNode editorState
             (path ++ Z.of_nat (if decide (j < i)%nat then j else S j) :: q))
    ∧ (∀ q, ¬ (q `prefix_of` path) → ¬ (path `prefix_of` q) →
            getNode editorState' q = getNode editorState q)
    ∧ NoDup (oids_of (children editorState'))
    ∧ blocks_along editorState' path = true.
Proof.
  intros HND Hr Hcs Hi Hblocks _. unfold getNode, deleteNode in *.
  assert (Hsplit : cs = take i cs ++ c :: drop (S i) cs)
    by (by rewrite take_drop_middle).
  assert (Hlen : length (take i cs) = i).
  { rewrite length_take. apply lookup_lt_Some in Hi. lia. }
  rewrite Hsplit in Hcs.
  destruct (removeNodes_child editorState path r _ _ c Hr Hcs HND)
    as (editorState' & Hdel & Hr' & Hcs' & HND').
  rewrite Hlen in Hdel. exists editorState'. split; [exact Hdel|].
  assert (Hdeleted : take i cs ++ drop (S i) cs = delete i cs).
  { rewrite Hsplit at 3. rewrite <- Hlen at 3. by rewrite delete_middle. }
  split; [|split; [|split; [exact HND'|]]].
  - intros j q. rewrite !Editor_node_app, Hr, Hr'.
    change (Ok ?x ≫= ?f) with (f x). cbv beta. rewrite Hcs, Hcs'.
    rewrite <- Hsplit, Hdeleted. by rewrite !child_at_of_nat, lookup_deleted.
  - intros q Hq1 Hq2. unfold removeNodes in Hdel.
    rewrite Path_parent_snoc in Hdel.
    by apply (modifyChildren_frame _ _ _ _ q Hdel).
  - by apply (deleteNode_blocks _ _ _ _ Hdel).
Qed.

Lemma deleteNode_lookup_witness :
  let item o s := Element o ListOrderedItem no_props [Text (S o) (plain s)] in
  let a := item 1%nat "a" in
  let b := item 3%nat "b" in
  let editorState := mkEditor [Element 0 ListOrdered no_props [a; b]] None in
  ∃ editorState',
    deleteNode editorState [0; 0] = Ok editorState'
    ∧ getNode editorState' [0; 0] = Ok (ANode b).
Proof.
  intros item a b editorState.
  destruct (deleteNode_lookup editorState [0]
              (ANode (Element 0 ListOrdered no_props [a; b])) [a; b] 0 a)
    as (editorState' & Hdel & Hshift & _).
  - apply (bool_decide_unpack _). vm_compute. exact I.
  - reflexivity.
  - reflexivity.
  - reflexivity.
  - reflexivity.
  - cbn. lia.
  - exists editorState'. split; [exact Hdel|]. exact (Hshift 0%nat []).
Defined.

(** X2.  What [getNode] answers for a node is what the renderer has on
    record, not where the node is.  The document was rendered as it stands,
    then the child [c] of a parent was deleted, the next child [d] taking
    its place; nothing was rendered since.  Asked for the path of [c],
    [getNode] still answers the path [c] had, where [d] now stands; asked
    for the path of [d], it answers the path [d] had, where now another node
    stands, or none. *)
Theorem getNode_path_stale (recorded : Rendered)
    (editorState editorState' : Editor) (path : Path) (r : NodeRef)
    (pre post : list Node) (c d : Node) :
  NoDup (oids_of (children editorState)) →
  up_to_date recorded editorState →
  getNode editorState path = Ok r →
  ref_children editorState r = Some (pre ++ c :: d :: post) →
  blocks_along editorState path = true →
  deleteNode editorState (path ++ [Z.of_nat (length pre)]) = Ok editorState' →
  getNode_path recorded editorState' (ANode c)
  = Ok (path ++ [Z.of_nat (length pre)])
  ∧ getNode editorState' (path ++ [Z.of_nat (length pre)]) = Ok (ANode d)
  ∧ getNode_path recorded editorState' (ANode d)
    = Ok (path ++ [Z.of_nat (S (length pre))])
  ∧ getNode editorState' (path ++ [Z.of_nat (S (length pre))])
    ≠ Ok (ANode d).
Proof.
  intros HND Hrec Hr Hcs _ Hdel. unfold getNode, getNode_path in *.
  assert (Hc : Editor_node editorState (path ++ [Z.of_nat (length pre)])
               = Ok (ANode c)).
  { by rewrite (Editor_node_snoc _ _ _ _ _ Hr Hcs), child_at_middle. }
  assert (Hd : Editor_node editorState (path ++ [Z.of_nat (S (length pre))])
               = Ok (ANode d)).
  { rewrite (Editor_node_snoc _ _ _ _ _ Hr Hcs), child_at_of_nat.
    rewrite lookup_app_r by lia.
    by replace (S (length pre) - length pre)%nat with 1%nat by lia. }
  destruct (removeNodes_child editorState path r pre (d :: post) c Hr Hcs HND)
    as (editorState1 & Hdel1 & Hr1 & Hcs1 & HND1).
  unfold deleteNode in Hdel. rewrite Hdel in Hdel1. injection Hdel1 as <-.
  assert (Hat : Editor_node editorState' (path ++ [Z.of_nat (length pre)])
                = Ok (ANode d)).
  { by rewrite (Editor_node_snoc _ _ _ _ _ Hr1 Hcs1), child_at_middle. }
  split; [by apply (findPath_up_to_date _ editorState)|].
  split; [exact Hat|].
  split; [by apply (findPath_up_to_date _ editorState)|].
  intros Hnext.
  pose proof (rendered_up_to_date _ HND1 _ _ Hat) as H1.
  pose proof (rendered_up_to_date _ HND1 _ _ Hnext) as H2.
  rewrite H1 in H2. injection H2 as H2. apply app_inv_head in H2.
  injection H2 as H2. lia.
Qed.

Lemma getNode_path_stale_witness :
  let item o s := Element o ListOrderedItem no_props [Text (S o) (plain s)] in
  let c := item 1%nat "c" in
  let d := item 3%nat "d" in
  let editorState := mkEditor [Element 0 ListOrdered no_props [c; d]] None in
  let editorState' := mkEditor [Element 0 ListOrdered no_props [d]] None in
  getNode_path (rendered (children editorState)) editorState' (ANode c)
  = Ok [0; 0]
  ∧ getNode editorState' [0; 0] = Ok (ANode d)
  ∧ getNode_path (rendered (children editorState)) editorState' (ANode d)
    = Ok [0; 1].
Proof.
  intros item c d editorState editorState'.
  destruct (getNode_path_stale (rendered (children editorState)) editorState
              editorState' [0]
              (ANode (Element 0 ListOrdered no_props [c; d])) [] [] c d)
    as (Hc & Hat & Hd & _).
  - apply (bool_decide_unpack _). vm_compute. exact I.
  - apply rendered_up_to_date.
    apply (bool_decide_unpack _). vm_compute. exact I.
  - reflexivity.
  - reflexivity.
  - reflexivity.
  - reflexivity.
  - split; [exact Hc|]. split; [exact Hat | exact Hd].
Defined.

(** X9.  [deleteNode] throws on the root path and on every path at which
    no node is found. *)
Theorem deleteNode_throws (editorState : Editor) (path : Path) :
  deleteNode editorState [] = Throw RootHasNoParent
  ∧ (path ≠ [] →
     (∀ r, getNode editorState path ≠ Ok r) →
     deleteNode editorState path = Throw OutOfBounds).
Proof.
  split; [reflexivity|]. intros Hpath Hnone.
  destruct path as [|i parent _] using rev_ind; [done|].
  unfold getNode, deleteNode, removeNodes in *. rewrite Path_parent_snoc. cbn.
  destruct (Editor_node editorState parent) as [r|x] eqn:Hr.
  - destruct (ref_children editorState r) as [cs|] eqn:Hcs.
    + apply (modifyChildren_throws _ _ _ r cs); [done|done|].
      destruct (child_at cs i) as [c|] eqn:Hc; [|done].
      destruct (Hnone (ANode c)).
      by rewrite (Editor_node_snoc _ _ _ _ _ Hr Hcs), Hc.
    + apply modifyChildren_invalid. intros r' cs Hr' Hcs'. congruence.
  - apply modifyChildren_invalid. intros r' cs Hr' Hcs'. congruence.
Qed.

Lemma deleteNode_throws_witness :
  deleteNode
    (mkEditor [Element 0 Paragraph no_props [Text 1 (plain "a")]] None) [0; 4]
  = Throw OutOfBounds.
Proof.
  apply (proj2 (deleteNode_throws
                  (mkEditor [Element 0 Paragraph no_props [Text 1 (plain "a")]]
                     None) [0; 4])).
  - discriminate.
  - intros r. discriminate.
Defined.

(** ** Attaching and clearing ideas, as one edit *)

Lemma addIdeasToNode_loop_set (ideas : list Node) :
  ∀ (editorState : Editor) (path : Path) (o : nat) (t : ElementType)
    (a : ElementProps) (cs acc : list Node),
    getNode editorState path = Ok (ANode (Element o t a (cs ++ acc))) →
    forEach (fun editorState idea =>
               len ← children_length editorState (ANode (Element o t a cs));
               insertNode editorState idea (path ++ [len]))
            ideas editorState
    = setChildren editorState path (cs ++ reverse ideas ++ acc).
Proof.
  induction ideas as [|idea ideas IH]; intros editorState path o t a cs acc Hget.
  - rewrite forEach_nil. symmetry. by apply (setChildren_same _ _ _ _ Hget).
  - destruct (setChildren_get editorState path _ (cs ++ acc)
                (cs ++ idea :: acc) Hget eq_refl)
      as (editorState1 & Hset & Hget1 & _).
    rewrite forEach_cons.
    replace (children_length editorState (ANode (Element o t a cs))
             ≫= (λ len, insertNode editorState idea (path ++ [len])))
      with (Ok editorState1).
    + change (Ok ?x ≫= ?f) with (f x). cbv beta.
      rewrite (IH editorState1 path o t a cs (idea :: acc) Hget1).
      rewrite (setChildren_twice _ _ _ _ _ Hset).
      by rewrite reverse_cons, <- app_assoc.
    + rewrite <- Hset. cbn [children_length ref_children].
      change (Ok ?x ≫= ?f) with (f x). cbv beta.
      unfold insertNode. rewrite insertNodes_snoc by lia.
      symmetry.
      apply (setChildren_of_modify _ _ _ (ANode (Element o t a (cs ++ acc)))
               (cs ++ acc)); [done|done|].
      rewrite decide_False by (rewrite length_app; lia).
      by rewrite splice_in_app.
Qed.

(** X10.  The document was rendered as it stands and each object stands
    in it once; the node is the root or an element that is not an image, it
    holds elements only, as do the nodes above it, one of them an idea, and
    it holds another child.  [clearIdeas] removes the idea and
    nothing else: the other children are left in their order, every position
    neither above nor below the path holds what it held, [getIdeas] then
    returns the empty array, and a second [clearIdeas] leaves the editor as
    it is. *)
Theorem clearIdeas_keeps_content (recorded : Rendered) (editorState : Editor)
    (path : Path) (r : NodeRef) (pre post : list Node) (idea : Node) :
  NoDup (oids_of (children editorState)) →
  up_to_date recorded editorState →
  getNode editorState path = Ok r →
  ref_type r ≠ Some Image →
  ref_children editorState r = Some (pre ++ idea :: post) →
  isIdeaElement idea = true →
  Forall (fun child => isIdeaElement child = false) (pre ++ post) →
  blocks_along editorState path = true →
  pre ++ post ≠ [] →
  ∃ editorState',
    clearIdeas recorded editorState path = Ok editorState'
    ∧ getNodeChildren editorState' path = Ok (Some (pre ++ post))
    ∧ getIdeas editorState' path = Ok []
    ∧ clearIdeas recorded editorState' path = Ok editorState'
    ∧ (∀ q, ¬ (q `prefix_of` path) → ¬ (path `prefix_of` q) →
            getNode editorState' q = getNode editorState q)
    ∧ blocks_along editorState' path = true.
Proof.
  intros HND Hrec Hr Himg Hcs Hidea Hrest Hblocks _.
  apply Forall_app in Hrest as Hparts. destruct Hparts as [Hpre Hpost].
  rewrite (clearIdeas_by_position _ _ _ _ _ Hrec Hr Himg Hcs).
  rewrite indices_from_app, (indices_from_none _ _ pre Hpre).
  cbn [indices_from app]. rewrite Hidea, (indices_from_none _ _ post Hpost).
  change (0 + length pre)%nat with (length pre).
  unfold getNode in Hr.
  destruct (removeNodes_child editorState path r pre post idea Hr Hcs HND)
    as (editorState' & Hdel & Hr' & Hcs' & HND').
  assert (Himg' : ref_type (with_children r (pre ++ post)) ≠ Some Image)
    by (by rewrite ref_type_with_children).
  assert (Hnone : getIdeas editorState' path = Ok []).
  { rewrite (getIdeas_element _ _ _ _ Hr' Himg' Hcs').
    by rewrite filter_no_ideas. }
  exists editorState'. split; [|split; [|split; [|split; [|split]]]].
  - rewrite forEach_cons. cbv beta.
    change (deleteNode ?e ?p) with (removeNodes e p). rewrite Hdel.
    change (Ok ?x ≫= ?f) with (f x). cbv beta. by rewrite forEach_nil.
  - by apply (getNodeChildren_element _ _ _ _ Hr' Himg' Hcs').
  - exact Hnone.
  - by apply clearIdeas_no_ideas.
  - intros q Hq1 Hq2. unfold removeNodes in Hdel.
    rewrite Path_parent_snoc in Hdel.
    by apply (modifyChildren_frame _ _ _ _ q Hdel).
  - by apply (deleteNode_blocks _ _ _ _ Hdel).
Qed.

Lemma clearIdeas_keeps_content_witness :
  let idea := Element 3 Idea no_props [Text 4 (plain "idea")] in
  let kept := Element 5 ListOrderedItem no_props [Text 6 (plain "kept")] in
  let editorState :=
    mkEditor [Element 0 Paragraph no_props [Text 1 (plain "before")];
              Element 2 ListOrdered no_props [idea; kept]] None in
  ∃ editorState',
    clearIdeas (rendered (children editorState)) editorState [1]
    = Ok editorState'
    ∧ getNodeChildren editorState' [1] = Ok (Some [kept])
    ∧ getIdeas editorState' [1] = Ok [].
Proof.
  intros idea kept editorState.
  destruct (clearIdeas_keeps_content (rendered (children editorState))
              editorState [1]
              (ANode (Element 2 ListOrdered no_props [idea; kept]))
              [] [kept] idea)
    as (editorState' & Hclear & Hkept & Hnone & _).
  - apply (bool_decide_unpack _). vm_compute. exact I.
  - apply rendered_up_to_date.
    apply (bool_decide_unpack _). vm_compute. exact I.
  - reflexivity.
  - discriminate.
  - reflexivity.
  - reflexivity.
  - repeat constructor.
  - reflexivity.
  - discriminate.
  - exists editorState'. split; [exact Hclear|]. split; [exact Hkept|].
    exact Hnone.
Defined.

(** X11.  Ideas are attached to a node below the root that holds elements
    only, none of them an idea; the ideas are idea elements on which the
    normalisation pass finds nothing to do.  Where the renderer has none of
    the new ideas on record, nothing having been rendered since they were
    attached, [clearIdeas] on the node throws at the first idea, which has no
    path.  Where one idea was attached and the document was rendered with
    it, [clearIdeas] gives back the editor as it was before the idea was
    attached. *)
Theorem addIdeasToNode_clearIdeas (recorded : Rendered)
    (editorState editorState1 : Editor) (path : Path) (o : nat)
    (t : ElementType) (a : ElementProps) (cs : list Node) (idea : Node)
    (ideas : list Node) :
  getNode editorState path = Ok (ANode (Element o t a cs)) →
  t ≠ Image → t ≠ ListOrderedItem → t ≠ ListUnorderedItem →
  blocks_along editorState path = true →
  cs ≠ [] →
  Forall (fun child => isIdeaElement child = false) cs →
  Forall (fun idea => isIdeaElement idea = true ∧ settled idea = true)
    (idea :: ideas) →
  addIdeasToNode editorState path (idea :: ideas) = Ok editorState1 →
  (Forall (fun idea => recorded (node_oid idea) = None) (idea :: ideas) →
   clearIdeas recorded editorState1 path = Throw NodeNotFound)
  ∧ (ideas = [] →
     NoDup (oids_of (children editorState1)) →
     clearIdeas (rendered (children editorState1)) editorState1 path
     = Ok editorState).
Proof.
  intros Hget Himg Hoi Hui _ _ Hcs Hideas Hadd.
  unfold addIdeasToNode in Hadd. rewrite Hget in Hadd.
  change (Ok ?x ≫= ?f) with (f x) in Hadd. cbv beta in Hadd.
  cbn [ref_type] in Hadd.
  rewrite decide_False in Hadd by (intros [|[|]]; congruence).
  rewrite (addIdeasToNode_loop_set (idea :: ideas) editorState path o t a cs [])
    in Hadd by (by rewrite app_nil_r).
  rewrite app_nil_r in Hadd.
  destruct (setChildren_get editorState path _ cs
              (cs ++ reverse (idea :: ideas)) Hget eq_refl)
    as (editorState1' & Hset & Hget1 & Hcs1).
  rewrite Hset in Hadd. injection Hadd as ->.
  assert (Himg1 : ref_type
                    (with_children (ANode (Element o t a cs))
                       (cs ++ reverse (idea :: ideas))) ≠ Some Image)
    by (cbn; congruence).
  assert (Hall : Forall (fun idea => isIdeaElement idea = true)
                   (reverse (idea :: ideas))).
  { apply Forall_reverse. eapply Forall_impl; [exact Hideas|].
    by intros ? [? _]. }
  split.
  - intros Hnew. unfold clearIdeas.
    rewrite (getIdeas_element _ _ _ _ Hget1 Himg1 Hcs1).
    rewrite List.filter_app, (filter_no_ideas cs Hcs), (filter_all_ideas _ Hall).
    change (Ok ?x ≫= ?f) with (f x). cbv beta. cbn [app].
    apply Forall_reverse in Hnew.
    destruct (reverse (idea :: ideas)) as [|first rest] eqn:Hrev.
    { apply (f_equal length) in Hrev. by rewrite length_reverse in Hrev. }
    apply Forall_cons in Hnew as [Hfirst _].
    rewrite forEach_cons. cbv beta. unfold findPath. cbn [node_oid].
    by rewrite Hfirst.
  - intros -> HND1. change (reverse [idea]) with [idea] in *.
    apply Forall_cons in Hall as [Hidea _].
    rewrite (clearIdeas_by_position _ _ _ _ _
               (rendered_up_to_date _ HND1) Hget1 Himg1 Hcs1).
    rewrite indices_from_app, (indices_from_none _ _ cs Hcs).
    cbn [indices_from app]. rewrite Hidea.
    change (0 + length cs)%nat with (length cs).
    rewrite forEach_cons. cbv beta.
    rewrite (deleteNode_as_setChildren _ _ _ cs [] idea Hget1 Hcs1).
    rewrite app_nil_r, (setChildren_twice _ _ _ _ _ Hset).
    rewrite (setChildren_same _ _ _ _ Hget eq_refl).
    change (Ok ?x ≫= ?f) with (f x). cbv beta. by rewrite forEach_nil.
Qed.

Lemma addIdeasToNode_clearIdeas_witness :
  let idea := Element 5 Idea no_props [Text 6 (plain "idea")] in
  let item := Element 1 ListOrderedItem no_props [Text 2 (plain "item")] in
  let editorState := mkEditor [Element 0 ListOrdered no_props [item]] None in
  let editorState1 :=
    mkEditor [Element 0 ListOrdered no_props [item; idea]] None in
  clearIdeas (rendered (children editorState)) editorState1 [0]
  = Throw NodeNotFound
  ∧ clearIdeas (rendered (children editorState1)) editorState1 [0]
    = Ok editorState.
Proof.
  intros idea item editorState editorState1.
  destruct (addIdeasToNode_clearIdeas (rendered (children editorState))
              editorState editorState1 [0] 0 ListOrdered no_props [item]
              idea [])
    as [Hstale Hfresh].
  - reflexivity.
  - discriminate.
  - discriminate.
  - discriminate.
  - reflexivity.
  - discriminate.
  - repeat constructor.
  - repeat constructor.
  - reflexivity.
  - split.
    + apply Hstale. repeat constructor.
    + apply Hfresh; [reflexivity|].
      apply (bool_decide_unpack _). vm_compute. exact I.
Defined.

(** X12.  Every node [getIdeas] returns is an idea element and a child of
    the node at the path: it is found one step below the path, and the ideas
    come in the order of their indices. *)
Theorem getIdeas_children (editorState : Editor) (path : Path)
    (ideas : list Node) :
  getIdeas editorState path = Ok ideas →
  Forall (fun idea =>
            isIdeaElement idea = true
            ∧ ∃ i : nat, getNode editorState (path ++ [Z.of_nat i])
                         = Ok (ANode idea)) ideas
  ∧ ∃ r, getNode editorState path = Ok r
         ∧ ∀ cs, ref_children editorState r = Some cs →
                 ideas `sublist_of` cs.
Proof.
  unfold getIdeas.
  destruct (getNode editorState path) as [r|] eqn:Hr; [|done].
  change (Ok ?x ≫= ?f) with (f x). cbv beta.
  destruct (decide (ref_type r = Some Image)).
  { intros [= <-]. split; [constructor|]. exists r. split; [done|].
    intros cs _. apply sublist_nil_l. }
  destruct (ref_children editorState r) as [cs|] eqn:Hcs; [|done].
  intros [= <-]. split.
  - apply Forall_forall. intros idea [Hin Hidea]%list_elem_of_In%filter_In.
    split; [exact Hidea|].
    apply list_elem_of_In, list_elem_of_lookup_1 in Hin as [i Hi].
    exists i. unfold getNode in *.
    by rewrite (Editor_node_snoc _ _ _ _ _ Hr Hcs), child_at_of_nat, Hi.
  - exists r. split; [done|]. intros cs' Hcs'.
    assert (cs' = cs) as -> by congruence.
    clear. induction cs as [|c cs IH]; cbn; [constructor|].
    destruct (isIdeaElement c); by constructor.
Qed.

Lemma getIdeas_children_witness :
  let idea := Element 3 Idea no_props [Text 4 (plain "idea")] in
  let editorState :=
    mkEditor [Element 2 Paragraph no_props [Text 5 (plain "kept"); idea]]
      None in
  Forall (fun idea =>
            isIdeaElement idea = true
            ∧ ∃ i : nat, getNode editorState ([0] ++ [Z.of_nat i])
                         = Ok (ANode idea)) [idea].
Proof.
  intros idea editorState.
  apply (getIdeas_children editorState [0] [idea]). reflexivity.
Defined.

(** X13.  On a path that leads to a text leaf [addIdeasToNode] returns
    the editor as it is when given no idea, and throws on the first idea
    otherwise, a leaf having no [children] to count; on a path that leads
    nowhere it throws whatever it is given. *)
Theorem addIdeasToNode_off_elements (editorState : Editor) (path : Path) :
  (∀ o lf, getNode editorState path = Ok (ANode (Text o lf)) →
           addIdeasToNode editorState path [] = Ok editorState
           ∧ ∀ idea ideas,
               addIdeasToNode editorState path (idea :: ideas)
               = Throw TypeError)
  ∧ ((∀ r, getNode editorState path ≠ Ok r) →
     ∀ ideas, addIdeasToNode editorState path ideas = Throw OutOfBounds).
Proof.
  split.
  - intros o lf Hr. unfold addIdeasToNode. rewrite Hr.
    change (Ok ?x ≫= ?f) with (f x). cbv beta. cbn [ref_type].
    rewrite decide_False by (by intros [|[|]]).
    split; [reflexivity|]. intros idea ideas. rewrite forEach_cons.
    cbn [children_length ref_children]. reflexivity.
  - intros Hnone ideas. unfold addIdeasToNode.
    destruct (getNode editorState path) as [r|x] eqn:Hr.
    + by destruct (Hnone r).
    + unfold getNode in Hr. by apply Editor_node_throws in Hr as ->.
Qed.

Lemma addIdeasToNode_off_elements_witness :
  let idea := Element 3 Idea no_props [Text 4 (plain "idea")] in
  let editorState :=
    mkEditor [Element 0 Paragraph no_props [Text 1 (plain "a")]] None in
  addIdeasToNode editorState [0; 0] [idea] = Throw TypeError
  ∧ addIdeasToNode editorState [7] [idea] = Throw OutOfBounds.
Proof.
  intros idea editorState.
  destruct (addIdeasToNode_off_elements editorState [0; 0]) as [Hleaf _].
  destruct (addIdeasToNode_off_elements editorState [7]) as [_ Hnowhere].
  split.
  - apply (proj2 (Hleaf 1%nat (plain "a") eq_refl)).
  - apply Hnowhere. intros r. discriminate.
Defined.

(** ** Text content, child by child *)

Lemma content_loop_with (s acc : string) (cs : list Node) :
  foldl (fun acc child =>
           content ← acc;
           match child with
           | Text _ lf => Ok (content +:+ text lf)
           | Element _ _ _ _ => s' ← Ok s; Ok (content +:+ s')
           end)
        (Ok acc) cs
  = Ok (acc +:+ texts_with s cs).
Proof.
  revert acc. induction cs as [|c cs IH]; intros acc.
  - cbn. by rewrite append_empty_r.
  - cbn [foldl texts_with foldr]. change (Ok acc ≫= ?f) with (f acc). cbv beta.
    destruct c as [o lf|o t a cs0].
    + by rewrite IH, append_assoc.
    + change (Ok s ≫= ?f) with (f s). cbv beta. by rewrite IH, append_assoc.
Qed.

Lemma content_loop_throws (x : Exn) (acc : string) (cs : list Node) :
  Exists (fun c => isTextLeaf c = false) cs →
  foldl (fun acc child =>
           content ← acc;
           match child with
           | Text _ lf => Ok (content +:+ text lf)
           | Element _ _ _ _ => s' ← Throw x; Ok (content +:+ s')
           end)
        (Ok acc) cs
  = Throw x.
Proof.
  intros Hcs. revert acc.
  induction Hcs as [c cs Hc|c cs _ IH]; intros acc.
  - destruct c as [|o t a cs0]; [done|]. cbn [foldl].
    change (Ok acc ≫= ?f) with (f acc). cbv beta.
    change (Throw x ≫= ?f) with (@Throw string x). apply forEach_throw.
  - cbn [foldl]. change (Ok acc ≫= ?f) with (f acc). cbv beta.
    destruct c as [o lf|o t a cs0]; [apply IH|].
    change (Throw x ≫= ?f) with (@Throw string x). apply forEach_throw.
Qed.

(** X14.  Every child that is not a text leaf contributes the content
    found at [path.concat(0)], the content of the first child, whatever its
    own position and content: when that content is [s], the result is the
    children's texts in order with [s] in the place of each element
    child. *)
Theorem getNodeContent_first_for_all (editorState : Editor) (path : Path)
    (r : NodeRef) (cs : list Node) (s : string) :
  getNode editorState path = Ok r →
  ref_type r ≠ Some Image →
  ref_children editorState r = Some cs →
  getNodeContent editorState (path ++ [0]) = Ok s →
  getNodeContent editorState path = Ok (texts_with s cs).
Proof.
  intros Hr Himg Hcs Hs. rewrite getNodeContent_eq.
  unfold getNodeChildren. rewrite Hr.
  change (Ok ?x ≫= ?f) with (f x). cbv beta.
  rewrite decide_True by done.
  change (Ok ?x ≫= ?f) with (f x). cbv beta. rewrite Hcs, Hs.
  exact (content_loop_with s "" cs).
Qed.

Lemma getNodeContent_first_for_all_witness :
  let one := Element 1 Paragraph no_props [Text 2 (plain "one")] in
  let two := Element 3 Paragraph no_props [Text 4 (plain "two")] in
  let editorState :=
    mkEditor [Element 0 Blockquote no_props [one; two]] None in
  getNodeContent editorState [0] = Ok "oneone".
Proof.
  intros one two editorState.
  apply (getNodeContent_first_for_all editorState [0]
           (ANode (Element 0 Blockquote no_props [one; two])) [one; two] "one").
  - reflexivity.
  - discriminate.
  - reflexivity.
  - reflexivity.
Defined.

(** X15.  When the first child is a text leaf and some later child is an
    element, [getNodeContent] throws: the call meant for the element goes to
    the leaf at [path.concat(0)], which has no children to run through. *)
Theorem getNodeContent_leaf_first (editorState : Editor) (path : Path)
    (r : NodeRef) (o : nat) (lf : FormattedText) (rest : list Node) :
  getNode editorState path = Ok r →
  ref_type r ≠ Some Image →
  ref_children editorState r = Some (Text o lf :: rest) →
  Exists (fun c => isTextLeaf c = false) rest →
  getNodeContent editorState path = Throw TypeError.
Proof.
  intros Hr Himg Hcs Hrest. rewrite getNodeContent_eq.
  unfold getNodeChildren. rewrite Hr.
  change (Ok ?x ≫= ?f) with (f x). cbv beta.
  rewrite decide_True by done.
  change (Ok ?x ≫= ?f) with (f x). cbv beta. rewrite Hcs.
  assert (Hfirst : getNodeContent editorState (path ++ [0]) = Throw TypeError).
  { unfold getNodeContent, getNode in *.
    by rewrite (Editor_node_snoc _ _ _ _ _ Hr Hcs). }
  rewrite Hfirst. unfold content_loop.
  apply (content_loop_throws TypeError "" (Text o lf :: rest)).
  by apply Exists_cons_tl.
Qed.

Lemma getNodeContent_leaf_first_witness :
  let idea := Element 1 Idea no_props [Text 2 (plain "generated")] in
  let editorState :=
    mkEditor
      [Element 0 Paragraph no_props [Text 3 (plain "written"); idea]] None in
  getNodeContent editorState [0] = Throw TypeError.
Proof.
  intros idea editorState.
  apply (getNodeContent_leaf_first editorState [0]
           (ANode (Element 0 Paragraph no_props
                     [Text 3 (plain "written"); idea]))
           3 (plain "written") [idea]).
  - reflexivity.
  - discriminate.
  - reflexivity.
  - by apply Exists_cons_hd.
Defined.

(** X16.  [getNodeContent] returns the empty text on an image, whatever
    the image holds, the texts of the children in order, with nothing
    between them, on a node whose children are all text leaves (the empty
    text when it has none), and throws on a path that leads to a text
    leaf. *)
Theorem getNodeContent_leaves (editorState : Editor) (path : Path)
    (r : NodeRef) :
  getNode editorState path = Ok r →
  (ref_type r = Some Image → getNodeContent editorState path = Ok "")
  ∧ (∀ cs, ref_type r ≠ Some Image →
           ref_children editorState r = Some cs →
           Forall (fun c => isTextLeaf c = true) cs →
           getNodeContent editorState path = Ok (leaf_texts cs))
  ∧ (ref_children editorState r = None →
     getNodeContent editorState path = Throw TypeError).
Proof.
  intros Hr. rewrite getNodeContent_eq. unfold getNodeChildren. rewrite Hr.
  change (Ok ?x ≫= ?f) with (f x). cbv beta. split; [|split].
  - intros Himg. rewrite decide_False; [done|]. by intros H.
  - intros cs Himg Hcs Hleaves. rewrite decide_True by done.
    change (Ok ?x ≫= ?f) with (f x). cbv beta. rewrite Hcs.
    exact (content_loop_leaves _ "" cs Hleaves).
  - intros Hnone. by destruct r as [|[o lf|]].
Qed.

Lemma getNodeContent_leaves_witness :
  let cs := [Text 1 (plain "a"); Text 2 (plain "b")] in
  let editorState := mkEditor [Element 0 Paragraph no_props cs] None in
  getNodeContent editorState [0] = Ok "ab"
  ∧ getNodeContent editorState [0; 1] = Throw TypeError.
Proof.
  intros cs editorState. split.
  - apply (proj1 (proj2 (getNodeContent_leaves editorState [0]
                           (ANode (Element 0 Paragraph no_props cs))
                           eq_refl)) cs).
    + discriminate.
    + reflexivity.
    + repeat constructor.
  - apply (proj2 (proj2 (getNodeContent_leaves editorState [0; 1]
                           (ANode (Text 2 (plain "b"))) eq_refl))).
    reflexivity.
Defined.

(** ** Splitting rendered children *)

Lemma indices_from_lookup {R : Type} (f : Node -> bool) (cs : list Node) :
  ∀ (pre rendered : list R),
    length rendered = length cs →
    (fun i => (pre ++ rendered) !! i) <$> indices_from f (length pre) cs
    = Some <$> (fst <$> List.filter (fun p => f p.2) (zip rendered cs)).
Proof.
  induction cs as [|c cs IH]; intros pre rendered Hlen.
  - by destruct rendered.
  - destruct rendered as [|x rendered]; [done|]. injection Hlen as Hlen.
    specialize (IH (pre ++ [x]) rendered Hlen).
    rewrite length_app, Nat.add_1_r, <- app_assoc in IH.
    cbn [indices_from zip zip_with List.filter snd].
    destruct (f c); cbn [fmap list_fmap fst].
    + rewrite list_lookup_middle by done. f_equal. exact IH.
    + exact IH.
Qed.

Lemma indices_from_length (f : Node -> bool) (i : nat) (cs : list Node) :
  length (indices_from f i cs) = length (List.filter f cs).
Proof.
  revert i. induction cs as [|c cs IH]; intros i; [done|].
  cbn. destruct (f c); cbn; by rewrite IH.
Qed.

Lemma filter_partition_Permutation {A : Type} (f : A -> bool) (l : list A) :
  List.filter (fun x => negb (f x)) l ++ List.filter f l ≡ₚ l.
Proof.
  induction l as [|x l IH]; [done|]. cbn. destruct (f x); cbn.
  - rewrite <- Permutation_middle. by constructor.
  - by constructor.
Qed.

Lemma filter_sublist {A : Type} (f : A -> bool) (l : list A) :
  List.filter f l `sublist_of` l.
Proof.
  induction l as [|x l IH]; cbn; [constructor|].
  destruct (f x); by constructor.
Qed.

(** X17.  With one rendered child per child of a node that is not an
    image, the rendered children are split without loss: both results hold
    rendered children only (no [undefined]), each in the order of the input,
    the two together are the input rearranged, and the second holds as many
    entries as the node has idea children. *)
Theorem splitChildren_aligned {R : Type} (rendered : list R) (o : nat)
    (t : ElementType) (a : ElementProps) (cs : list Node) :
  t ≠ Image →
  length rendered = length cs →
  ∃ elements ideas : list R,
    splitChildrenIntoElementsAndIdeas rendered (Element o t a cs)
    = Ok (Some <$> elements, Some <$> ideas)
    ∧ elements ++ ideas ≡ₚ rendered
    ∧ elements `sublist_of` rendered
    ∧ ideas `sublist_of` rendered
    ∧ length ideas = length (List.filter isIdeaElement cs).
Proof.
  intros Himg Hlen.
  exists (fst <$> List.filter (fun p => negb (isIdeaElement p.2))
                    (zip rendered cs)),
         (fst <$> List.filter (fun p => isIdeaElement p.2) (zip rendered cs)).
  assert (Hfst : fst <$> zip rendered cs = rendered)
    by (apply fst_zip; lia).
  split; [|split; [|split; [|split]]].
  - cbn. rewrite decide_False by done.
    pose proof (indices_from_lookup (R := R)
                  (fun child => negb (isIdeaElement child)) cs [] rendered Hlen)
      as Helements.
    pose proof (indices_from_lookup (R := R) isIdeaElement cs [] rendered Hlen)
      as Hideas.
    cbn [length app] in Helements, Hideas. by rewrite Helements, Hideas.
  - rewrite <- fmap_app. rewrite <- Hfst at 3. apply fmap_Permutation.
    apply (filter_partition_Permutation (fun p => isIdeaElement p.2)).
  - rewrite <- Hfst at 2. apply fmap_sublist, filter_sublist.
  - rewrite <- Hfst at 2. apply fmap_sublist, filter_sublist.
  - pose proof (indices_from_lookup (R := R) isIdeaElement cs [] rendered Hlen)
      as Hideas.
    apply (f_equal length) in Hideas. rewrite !length_fmap in Hideas.
    rewrite length_fmap, <- Hideas. apply indices_from_length.
Qed.

Lemma splitChildren_aligned_witness :
  let idea := Element 3 Idea no_props [Text 4 (plain "idea")] in
  let cs := [Text 1 (plain "a"); idea; Text 2 (plain "b")] in
  splitChildrenIntoElementsAndIdeas ["<a>"; "<idea>"; "<b>"]
    (Element 0 Paragraph no_props cs)
  = Ok ([Some "<a>"; Some "<b>"], [Some "<idea>"]).
Proof.
  intros idea cs.
  destruct (splitChildren_aligned ["<a>"; "<idea>"; "<b>"] 0 Paragraph
              no_props cs) as (elements & ideas & Hsplit & _).
  - discriminate.
  - reflexivity.
  - rewrite Hsplit. cbn in Hsplit. injection Hsplit as -> ->. reflexivity.
Defined.

(** X18.  Whatever is rendered, the two results have one entry per child
    of the node that is not an idea and one per child that is, so as many
    ideas as [getIdeas] finds; for an image everything rendered is content
    and there is no idea; a text leaf in the place of the node makes the
    function throw. *)
Theorem splitChildren_counts {R : Type} (rendered : list R) (n : Node) :
  match n with
  | Text _ _ =>
      splitChildrenIntoElementsAndIdeas rendered n = Throw TypeError
  | Element _ t _ cs =>
      if decide (t = Image)
      then splitChildrenIntoElementsAndIdeas rendered n
           = Ok (Some <$> rendered, [])
      else ∃ elements ideas,
             splitChildrenIntoElementsAndIdeas rendered n = Ok (elements, ideas)
             ∧ length elements = length (List.filter notIdeaElement cs)
             ∧ length ideas = length (List.filter isIdeaElement cs)
  end.
Proof.
  destruct n as [o lf|o t a cs]; [reflexivity|].
  cbn. destruct (decide (t = Image)); [reflexivity|].
  eexists _, _. split; [reflexivity|].
  rewrite !length_fmap, !indices_from_length. done.
Qed.

(** ** The cursor *)

Lemma last_below_Element (o : nat) (t : ElementType) (a : ElementProps)
    (cs : list Node) :
  last_below (Element o t a cs)
  = default ([], Element o t a cs) (last_among 0 cs).
Proof.
  cbn.
  assert (H : ∀ i, (fix last_child (i : nat) (cs : list Node)
                       : option (Path * Node) :=
                      match cs with
                      | [] => None
                      | c :: cs' =>
                          match last_child (S i) cs' with
                          | Some r => Some r
                          | None =>
                              Some (let '(p, m) := last_below c in
                                    (Z.of_nat i :: p, m))
                          end
                      end) i cs = last_among i cs).
  { clear. induction cs as [|c cs IH]; intros i; [done|].
    cbn. by rewrite IH. }
  rewrite H. by destruct (last_among 0 cs).
Qed.

Lemma last_among_Some (i : nat) (cs : list Node) (p : Path) (m : Node) :
  last_among i cs = Some (p, m) →
  ∃ k c p', p = Z.of_nat (i + k) :: p' ∧ cs !! k = Some c
            ∧ last_below c = (p', m).
Proof.
  revert i. induction cs as [|c cs IH]; intros i; cbn; [done|].
  destruct (last_among (S i) cs) as [[p1 m1]|] eqn:Hlast.
  - intros [= -> ->]. destruct (IH (S i) Hlast) as (k & c' & p' & -> & Hk & Hc).
    exists (S k), c', p'. split; [f_equal; lia | done].
  - destruct (last_below c) as [p' m'] eqn:Hc. intros [= <- <-].
    exists 0%nat, c, p'. by rewrite Nat.add_0_r.
Qed.

Lemma last_below_get (n : Node) :
  ∀ p m, last_below n = (p, m) → Node_get p n = Ok m.
Proof.
  induction n as [o lf|o t a cs IH] using Node_induction; intros p m.
  - by intros [= <- <-].
  - rewrite last_below_Element.
    destruct (last_among 0 cs) as [[p1 m1]|] eqn:Hlast; cbn.
    + intros [= <- <-].
      apply last_among_Some in Hlast as (k & c & p' & -> & Hk & Hc).
      cbn. rewrite child_at_of_nat, Hk.
      rewrite Forall_forall in IH. apply IH; [|done].
      by apply list_elem_of_lookup_2 in Hk.
    + by intros [= <- <-].
Qed.

Lemma Editor_node_children (editor editor' : Editor) (q : Path) :
  children editor' = children editor →
  Editor_node editor' q = Editor_node editor q.
Proof. intros H. destruct q; cbn; by rewrite ?H. Qed.

Lemma Editor_point_end (editor : Editor) (at_ : Path) (pt : Point) :
  Editor_point editor at_ EdgeEnd = Ok pt →
  ∃ o lf, Editor_node editor (path pt) = Ok (ANode (Text o lf))
          ∧ offset pt = Z.of_nat (String.length (text lf))
          ∧ at_ `prefix_of` path pt.
Proof.
  unfold Editor_point.
  destruct (Editor_node editor at_) as [r|] eqn:Hr; [|done].
  change (Ok ?x ≫= ?f) with (f x). cbv beta.
  destruct r as [|n].
  - assert (at_ = []) as ->.
    { destruct at_; [done|]. cbn in Hr.
      destruct (child_at (children editor) z); [|done].
      by destruct (Node_get at_ n). }
    destruct (last_among 0 (children editor)) as [[p [o lf|]]|] eqn:Hlast;
      [|done|done].
    cbn. intros [= <-]. exists o, lf. cbn. split; [|split; [done|]].
    + apply last_among_Some in Hlast as (k & c & p' & -> & Hk & Hc).
      cbn. rewrite child_at_of_nat, Hk.
      by rewrite (last_below_get _ _ _ Hc).
    + apply prefix_nil.
  - destruct (last_below n) as [p [o lf|]] eqn:Hlast; [|done].
    intros [= <-]. exists o, lf. cbn. split; [|split; [done|]].
    + apply last_below_get in Hlast.
      rewrite Editor_node_root_of in Hr |- *.
      destruct at_ as [|z at_]; [done|]. cbn [app].
      rewrite (Node_get_app (z :: at_) p).
      destruct (Node_get (z :: at_) (root_of editor)); [|done].
      cbn in Hr. injection Hr as ->. cbn. by rewrite Hlast.
    + by apply prefix_app_r.
Qed.

(** X19.  When [setCursor] returns, the document is as it was and the
    selection is a single point: [getCursorPosition] gives a path that
    extends the path asked for and leads to a text leaf, and the index is
    the length of that leaf's text. *)
Theorem setCursor_getCursorPosition (editorState editorState' : Editor)
    (at_ : Path) :
  setCursor editorState at_ = Ok editorState' →
  children editorState' = children editorState
  ∧ ∃ (pt : Point) (o : nat) (lf : FormattedText),
      selection editorState' = Some (mkRange pt pt)
      ∧ getCursorPosition editorState' = (offset pt, path pt)
      ∧ at_ `prefix_of` path pt
      ∧ getNode editorState' (path pt) = Ok (ANode (Text o lf))
      ∧ offset pt = Z.of_nat (String.length (text lf)).
Proof.
  unfold setCursor, select_collapse_end.
  destruct (Editor_point editorState at_ EdgeStart) as [start|]; [|done].
  change (Ok ?x ≫= ?f) with (f x). cbv beta.
  destruct (Editor_point editorState at_ EdgeEnd) as [pt|] eqn:Hend; [|done].
  change (Ok ?x ≫= ?f) with (f x). cbv beta. intros [= <-].
  split; [reflexivity|].
  destruct (Editor_point_end _ _ _ Hend) as (o & lf & Hleaf & Hoff & Hpre).
  exists pt, o, lf. split; [reflexivity|]. split; [reflexivity|].
  split; [exact Hpre|]. split; [|exact Hoff].
  unfold getNode. by rewrite (Editor_node_children editorState).
Qed.

Lemma setCursor_getCursorPosition_witness :
  let editorState :=
    mkEditor
      [Element 0 Paragraph no_props
         [Text 1 (plain "one"); Text 2 (plain "three")]] None in
  ∃ editorState',
    setCursor editorState [0] = Ok editorState'
    ∧ getCursorPosition editorState' = (5, [0; 1]).
Proof.
  intros editorState. eexists. split; [reflexivity|].
  destruct (setCursor_getCursorPosition editorState _ [0] eq_refl)
    as (_ & pt & o & lf & Hsel & Hpos & _).
  injection Hsel as <-. exact Hpos.
Defined.

(** X20.  [setCursor] throws on a path at which no node is found, and on
    a path to an element without children, in which there is no text to put
    the cursor in. *)
Theorem setCursor_throws (editorState : Editor) (at_ : Path) :
  ((∀ r, getNode editorState at_ ≠ Ok r) →
   setCursor editorState at_ = Throw OutOfBounds)
  ∧ (∀ o t a, getNode editorState at_ = Ok (ANode (Element o t a [])) →
       setCursor editorState at_
       = Throw (Error "Cannot get the point: no text node")).
Proof.
  unfold setCursor, select_collapse_end, Editor_point, getNode. split.
  - intros Hnone. destruct (Editor_node editorState at_) as [r|x] eqn:Hr.
    + by destruct (Hnone r).
    + by apply Editor_node_throws in Hr as ->.
  - by intros o t a ->.
Qed.

Lemma setCursor_throws_witness :
  setCursor (mkEditor [Element 0 Paragraph no_props []] None) [0]
  = Throw (Error "Cannot get the point: no text node")
  ∧ setCursor (mkEditor [Element 0 Paragraph no_props []] None) [1]
    = Throw OutOfBounds.
Proof.
  split.
  - apply (proj2 (setCursor_throws
                    (mkEditor [Element 0 Paragraph no_props []] None) [0])
             0%nat Paragraph no_props).
    reflexivity.
  - apply (proj1 (setCursor_throws
                    (mkEditor [Element 0 Paragraph no_props []] None) [1])).
    intros r. discriminate.
Defined.

(** X21.  After the cursor is set to a path of at least two segments
    whose first segment leads to a list container, the index of the current
    list item is the second segment of that path. *)
Theorem setCursor_getIndexOfCurrentListItem (editorState editorState' : Editor)
    (i j : Z) (rest : Path) (t : ElementType) :
  getNodeType (IsEditor editorState) (Some [i]) = Ok (Some t) →
  t = ListOrdered ∨ t = ListUnordered →
  setCursor editorState (i :: j :: rest) = Ok editorState' →
  getIndexOfCurrentListItem editorState' = Ok (Num j).
Proof.
  intros Ht Hlist Hset.
  assert (Hunfold := Hset). unfold setCursor, select_collapse_end in Hunfold.
  destruct (Editor_point editorState (i :: j :: rest) EdgeStart) as [start|];
    [|done].
  change (Ok ?x ≫= ?f) with (f x) in Hunfold. cbv beta in Hunfold.
  destruct (Editor_point editorState (i :: j :: rest) EdgeEnd) as [pt|] eqn:Hend;
    [|done].
  change (Ok ?x ≫= ?f) with (f x) in Hunfold. cbv beta in Hunfold.
  injection Hunfold as <-.
  destruct (Editor_point_end _ _ _ Hend) as (_ & _ & _ & _ & [k Hk]).
  rewrite (getIndexOfCurrentListItem_selected _ (mkRange pt pt) i
             (j :: rest ++ k) (Some t)).
  - rewrite bool_decide_eq_true_2; [done|].
    destruct Hlist as [->| ->]; auto.
  - reflexivity.
  - cbn. by rewrite Hk.
  - rewrite getNodeType_by_path in Ht |- *. unfold getNode in *.
    by rewrite (Editor_node_children editorState).
Qed.

Lemma setCursor_getIndexOfCurrentListItem_witness :
  let item o := Element o ListOrderedItem no_props [Text (S o) (plain "x")] in
  let editorState :=
    mkEditor
      [Element 0 Paragraph no_props [Text 1 (plain "intro")];
       Element 2 ListOrdered no_props [item 3%nat; item 5%nat; item 7%nat]]
      None in
  ∃ editorState',
    setCursor editorState [1; 2] = Ok editorState'
    ∧ getIndexOfCurrentListItem editorState' = Ok (Num 2).
Proof.
  intros item editorState. eexists. split; [reflexivity|].
  apply (setCursor_getIndexOfCurrentListItem editorState _ 1 2 [] ListOrdered).
  - reflexivity.
  - left. reflexivity.
  - reflexivity.
Defined.

(** ** Lists *)

(** X22.  The two forms of the list predicates agree: asked by path, they
    answer what they answer for the type of the node at that path; a node is
    never both a list and a list item, and on a text leaf or on the root
    both answers are false. *)
Theorem list_predicates_by_type (editorState : Editor) (p : Path)
    (t : option ElementType) :
  getNodeType (IsEditor editorState) (Some p) = Ok t →
  match t with
  | Some type =>
      isNodeAList editorState (inl p) = isNodeAList editorState (inr type)
      ∧ isNodeAListItem editorState (inl p)
        = isNodeAListItem editorState (inr type)
  | None =>
      isNodeAList editorState (inl p) = Ok false
      ∧ isNodeAListItem editorState (inl p) = Ok false
  end
  ∧ ¬ (isNodeAList editorState (inl p) = Ok true
       ∧ isNodeAListItem editorState (inl p) = Ok true).
Proof.
  intros Ht. rewrite isNodeAList_by_path, isNodeAListItem_by_path, Ht.
  change (Ok ?x ≫= ?f) with (f x). cbv beta.
  destruct t as [[]|]; cbn; (split; [by split|]); by intros [[=] [=]].
Qed.

Lemma list_predicates_by_type_witness :
  let editorState :=
    mkEditor
      [Element 0 ListUnordered no_props
         [Element 1 ListUnorderedItem no_props [Text 2 (plain "x")]]] None in
  isNodeAList editorState (inl [0]) = isNodeAList editorState (inr ListUnordered)
  ∧ isNodeAListItem editorState (inl [0])
    = isNodeAListItem editorState (inr ListUnordered).
Proof.
  intros editorState.
  exact (proj1 (list_predicates_by_type editorState [0] (Some ListUnordered)
                  eq_refl)).
Defined.

(** X23.  [isNodeWrappedInList] looks at the parent only: for a path one
    step below a node it is true exactly when that node is a list
    container, whether or not anything stands at the path itself; it is
    false on the root path and one step below the root, and it throws when
    the parent path leads nowhere. *)
Theorem isNodeWrappedInList_parent (editorState : Editor) (parent : Path)
    (i : Z) :
  isNodeWrappedInList editorState [] = Ok false
  ∧ isNodeWrappedInList editorState [i] = Ok false
  ∧ (∀ t, getNodeType (IsEditor editorState) (Some parent) = Ok t →
          isNodeWrappedInList editorState (parent ++ [i])
          = Ok (bool_decide (t = Some ListOrdered ∨ t = Some ListUnordered)))
  ∧ ((∀ r, getNode editorState parent ≠ Ok r) →
     isNodeWrappedInList editorState (parent ++ [i]) = Throw OutOfBounds).
Proof.
  split; [reflexivity|]. split; [reflexivity|].
  unfold isNodeWrappedInList, getNodeParent. rewrite removelast_last. split.
  - intros t Ht. rewrite getNodeType_by_path in Ht.
    destruct (getNode editorState parent) as [r|] eqn:Hr; [|done].
    change (Ok ?x ≫= ?f) with (f x). cbv beta.
    change (Ok ?x ≫= ?f) with (f x). cbv beta. cbn [snd].
    rewrite isNodeAList_by_path, getNodeType_by_path, Hr.
    cbn in Ht |- *. by injection Ht as ->.
  - intros Hnone. destruct (getNode editorState parent) as [r|x] eqn:Hr.
    + by destruct (Hnone r).
    + unfold getNode in Hr. by apply Editor_node_throws in Hr as ->.
Qed.

Lemma isNodeWrappedInList_parent_witness :
  let editorState :=
    mkEditor
      [Element 0 ListUnordered no_props
         [Element 1 ListUnorderedItem no_props [Text 2 (plain "x")]]] None in
  isNodeWrappedInList editorState [0; 0] = Ok true
  ∧ isNodeWrappedInList editorState [0; 9] = Ok true
  ∧ isNodeWrappedInList editorState [4; 0] = Throw OutOfBounds.
Proof.
  intros editorState.
  destruct (isNodeWrappedInList_parent editorState [0] 0) as (_ & _ & H0 & _).
  destruct (isNodeWrappedInList_parent editorState [0] 9) as (_ & _ & H9 & _).
  destruct (isNodeWrappedInList_parent editorState [4] 0) as (_ & _ & _ & H4).
  split; [exact (H0 (Some ListUnordered) eq_refl)|].
  split; [exact (H9 (Some ListUnordered) eq_refl)|].
  apply H4. intros r. discriminate.
Defined.




(** X25.  On a path at which no node is found [insertListWrapper] does
    not return quietly as it does for a node that is no list item: it
    throws. *)
Theorem insertListWrapper_throws (editorState : Editor) (path : Path)
    (type : ElementType) :
  (∀ r, getNode editorState path ≠ Ok r) →
  insertListWrapper editorState path type = Throw OutOfBounds.
Proof.
  intros Hnone. unfold insertListWrapper.
  rewrite isNodeAListItem_by_path, getNodeType_by_path.
  destruct (getNode editorState path) as [r|x] eqn:Hr.
  - by destruct (Hnone r).
  - unfold getNode in Hr. by apply Editor_node_throws in Hr as ->.
Qed.

Lemma insertListWrapper_throws_witness :
  insertListWrapper
    (mkEditor [Element 0 Paragraph no_props [Text 1 (plain "a")]] None)
    [3] ListOrdered
  = Throw OutOfBounds.
Proof.
  apply insertListWrapper_throws. intros r. discriminate.
Defined.

(** ** Witnesses for the lemmas on the current list item *)

Lemma getIndexOfCurrentListItem_in_list_witness :
  let item o := Element o ListOrderedItem no_props [Text (S o) (plain "")] in
  let document := [Element 2 ListOrdered no_props [item 3%nat; item 5%nat]] in
  let deep := mkPoint [0; 1; 0] 0 in
  let shallow := mkPoint [0] 0 in
  getIndexOfCurrentListItem (mkEditor document (Some (mkRange deep deep)))
  = Ok (Num 1)
  ∧ getIndexOfCurrentListItem
      (mkEditor document (Some (mkRange shallow shallow)))
    = Ok Undefined.
Proof.
  intros item document deep shallow. split.
  - apply (getIndexOfCurrentListItem_in_list
             (mkEditor document (Some (mkRange deep deep))) (mkRange deep deep)
             0 [1; 0] ListOrdered).
    + reflexivity.
    + reflexivity.
    + reflexivity.
    + left. reflexivity.
  - apply (getIndexOfCurrentListItem_in_list
             (mkEditor document (Some (mkRange shallow shallow)))
             (mkRange shallow shallow) 0 [] ListOrdered).
    + reflexivity.
    + reflexivity.
    + reflexivity.
    + left. reflexivity.
Defined.

Lemma getIndexOfCurrentListItem_outside_list_witness :
  let document := [Element 0 Paragraph no_props [Text 1 (plain "a")]] in
  let caret := mkPoint [0; 0] 1 in
  getIndexOfCurrentListItem (mkEditor document (Some (mkRange caret caret)))
  = Ok (Num (-1)).
Proof.
  intros document caret.
  apply (getIndexOfCurrentListItem_outside_list
           (mkEditor document (Some (mkRange caret caret)))
           (mkRange caret caret) 0 [0] (Some Paragraph)).
  - reflexivity.
  - reflexivity.
  - reflexivity.
  - discriminate.
  - discriminate.
Defined.
